(** * CAN injection safety gate: rule engine, rate limiter and send path

    A shallow embedding of
      - [can_cli/safety/rules.py]        (SafetyRules.validate_message),
      - [can_cli/safety/rate_limiter.py] (RateLimiter.check_and_update),
      - [can_cli/core/can_interface.py]  (BaseCANInterface.send),
    together with the properties of the safety gate that are stated
    about them.

    Python [int] is modelled by [Z], [bytes] by [list Byte.byte], [str] by
    [string], a [set] of ints by [gset Z], a [dict] keyed by ints by
    [gmap Z _], and a [deque] by a [list] whose head is the left end.
    Wall-clock readings ([time.time()]) are passed in as an argument;
    they and the window size are modelled by rationals, with exact
    subtraction and comparison. *)

From Stdlib Require Import ZArith QArith String Ascii List Lia.
From Stdlib.Strings Require Import Byte.
From Stdlib Require Import DecimalString Sorted.
From stdpp Require Import base decidable option list gmap strings.

Local Open Scope string_scope.
Local Open Scope list_scope.
Local Open Scope Z_scope.

(** ** Python string formatting *)

Module PyFormat.

(** [str(n)] and [f"{n}"] for an int. *)
Definition str_int (z : Z) : string := NilZero.string_of_int (Z.to_int z).

Definition hex_digit (d : N) : ascii :=
  match d with
  | 0%N => "0"%char | 1%N => "1"%char | 2%N => "2"%char | 3%N => "3"%char
  | 4%N => "4"%char | 5%N => "5"%char | 6%N => "6"%char | 7%N => "7"%char
  | 8%N => "8"%char | 9%N => "9"%char | 10%N => "A"%char | 11%N => "B"%char
  | 12%N => "C"%char | 13%N => "D"%char | 14%N => "E"%char | _ => "F"%char
  end.

(** Most significant digit first; [fuel] bounds the number of digits. *)
Fixpoint hex_digits (fuel : nat) (n : N) (acc : string) : string :=
  match fuel with
  | O => acc
  | S fuel' =>
      if (n =? 0)%N then acc
      else hex_digits fuel' (n / 16)%N (String (hex_digit (n mod 16)%N) acc)
  end.

(** [format(n, "X")] for [n >= 0]. *)
Definition upper_hex (n : N) : string :=
  if (n =? 0)%N then "0" else hex_digits (N.size_nat n) n "".

Fixpoint zeros (k : nat) : string :=
  match k with
  | O => ""
  | S k' => String "0"%char (zeros k')
  end.

(** [f"{z:03X}"]: upper-case hexadecimal, zero-filled to width 3; the
    fill goes between the sign and the digits. *)
Definition format_03X (z : Z) : string :=
  let sign := if z <? 0 then "-" else "" in
  let digits := upper_hex (Z.abs_N z) in
  sign +:+ zeros (3 - String.length sign - String.length digits) +:+ digits.

End PyFormat.

Import PyFormat.

(** ** [safety/rules.py] *)

Inductive SafetyMode : Type :=
  | DEVELOPMENT
  | TESTING
  | PRODUCTION
  | LOCKED.

#[global] Instance SafetyMode_eq_dec : EqDecision SafetyMode.
Proof. solve_decision. Defined.

(** [SafetyMode.value] *)
Definition mode_value (m : SafetyMode) : string :=
  match m with
  | DEVELOPMENT => "development"
  | TESTING => "testing"
  | PRODUCTION => "production"
  | LOCKED => "locked"
  end.

Record SafetyViolation : Type := mkSafetyViolation {
  rule : string;
  message : string;
  severity : string;
  requires_confirmation : bool;
  can_override : bool
}.

Record ValidationResult : Type := mkValidationResult {
  passed : bool;
  violations : list SafetyViolation;
  warnings : list string
}.

(** [ValidationResult.requires_confirmation]:
    [any(v.requires_confirmation for v in self.violations)] *)
Definition result_requires_confirmation (r : ValidationResult) : bool :=
  existsb requires_confirmation (violations r).

(** [ValidationResult.can_override]:
    [all(v.can_override for v in self.violations)] *)
Definition result_can_override (r : ValidationResult) : bool :=
  forallb can_override (violations r).

(** One value of the [CRITICAL_ADDRESSES] table. *)
Record AddrInfo : Type := mkAddrInfo {
  name : string;
  info_severity : string;
  description : string
}.

Definition CRITICAL_ADDRESSES : gmap Z AddrInfo :=
  list_to_map
    [ (0x180, mkAddrInfo "Steering Control" "critical" "Direct steering torque command");
      (0x2E4, mkAddrInfo "Steering Assist" "critical" "Lane keeping assist command");
      (0x200, mkAddrInfo "Brake Command" "critical" "Direct brake actuation");
      (0x343, mkAddrInfo "AEB Control" "critical" "Automatic emergency braking");
      (0x1FA, mkAddrInfo "Brake Pressure" "critical" "Brake pressure request");
      (0x220, mkAddrInfo "Throttle Control" "critical" "Throttle position command");
      (0x2C1, mkAddrInfo "Engine Torque" "critical" "Engine torque request");
      (0x260, mkAddrInfo "Transmission Control" "critical" "Gear selection command");
      (0x1D2, mkAddrInfo "Shift Request" "critical" "Transmission shift request");
      (0x326, mkAddrInfo "Cruise Control" "high" "ACC/Cruise commands");
      (0x394, mkAddrInfo "Airbag Control" "critical" "Airbag deployment control");
      (0x3B7, mkAddrInfo "Power Steering" "high" "EPS control");
      (0x451, mkAddrInfo "Stability Control" "high" "ESC/VSC commands") ].

Definition DEFAULT_BLOCKED (m : SafetyMode) : gset Z :=
  match m with
  | LOCKED => dom CRITICAL_ADDRESSES
  | PRODUCTION => {[ 0x180; 0x200; 0x220; 0x260; 0x343; 0x394 ]}
  | TESTING => {[ 0x180; 0x200; 0x394 ]}
  | DEVELOPMENT => ∅
  end.

(** The engine after [__init__]: its mode and the blocked set chosen by
    [_get_blocked_addresses]. *)
Record SafetyRules : Type := mkSafetyRules {
  mode : SafetyMode;
  blocked_addresses : gset Z
}.

(** [_get_blocked_addresses]: the list found under
    [config['safety']['modes'][mode.value]['blocked_addresses']] when the
    configuration has one, the default of the mode otherwise. *)
Definition _get_blocked_addresses (m : SafetyMode) (configured : option (list Z)) : gset Z :=
  match configured with
  | Some l => list_to_set l
  | None => DEFAULT_BLOCKED m
  end.

Definition new_SafetyRules (m : SafetyMode) (configured : option (list Z)) : SafetyRules :=
  {| mode := m; blocked_addresses := _get_blocked_addresses m configured |}.

Definition locked_violation : SafetyViolation :=
  {| rule := "locked_mode";
     message := "Write operations are not allowed in LOCKED mode";
     severity := "critical";
     requires_confirmation := false;
     can_override := false |}.

Definition blocked_violation (m : SafetyMode) (address : Z) : SafetyViolation :=
  let addr_name :=
    match CRITICAL_ADDRESSES !! address with
    | Some info => name info
    | None => "0x" +:+ format_03X address
    end in
  {| rule := "blocked_address";
     message := "Address " +:+ addr_name +:+ " (0x" +:+ format_03X address
                +:+ ") is blocked in " +:+ mode_value m +:+ " mode";
     severity := "critical";
     requires_confirmation := false;
     can_override := bool_decide (m = DEVELOPMENT) |}.

Definition critical_violation (info : AddrInfo) : SafetyViolation :=
  {| rule := "critical_message";
     message := "Critical message: " +:+ name info +:+ " - " +:+ description info;
     severity := info_severity info;
     requires_confirmation := true;
     can_override := true |}.

Definition critical_warning (info : AddrInfo) (address : Z) : string :=
  "⚠️  CRITICAL: Sending to " +:+ name info +:+ " (0x" +:+ format_03X address
  +:+ ") - " +:+ description info.

Definition length_violation (len : Z) (kind limit : string) : SafetyViolation :=
  {| rule := "invalid_data_length";
     message := "Data length " +:+ str_int len +:+ " exceeds " +:+ kind
                +:+ " limit of " +:+ limit +:+ " bytes";
     severity := "high";
     requires_confirmation := false;
     can_override := false |}.

Definition bus_violation (bus : Z) : SafetyViolation :=
  {| rule := "invalid_bus";
     message := "Invalid bus number: " +:+ str_int bus +:+ " (valid: 0, 1, 2)";
     severity := "high";
     requires_confirmation := false;
     can_override := false |}.

Definition development_warning : string :=
  "⚠️  Development mode active - Safety checks reduced".

Definition empty_payload_warning : string :=
  "⚠️  Sending empty data payload".

(** Python's [not l] for a list [l]. *)
Definition is_empty {A : Type} (l : list A) : bool :=
  match l with
  | [] => true
  | _ :: _ => false
  end.

(** The [if / elif / elif] chain on the mode and the address
    (rules.py, lines 129-165): the violations and warnings it appends. *)
Definition classify_address (self : SafetyRules) (address : Z)
  : list SafetyViolation * list string :=
  if bool_decide (mode self = LOCKED) then
    ([locked_violation], [])
  else if bool_decide (address ∈ blocked_addresses self) then
    ([blocked_violation (mode self) address], [])
  else
    match CRITICAL_ADDRESSES !! address with
    | Some info =>
        if bool_decide (mode self = PRODUCTION) then ([critical_violation info], [])
        else ([], [critical_warning info address])
    | None => ([], [])
    end.

(** Data length against the bus type (lines 167-185). *)
Definition check_data_length (data : list Byte.byte) (bus : Z) : list SafetyViolation :=
  let len := Z.of_nat (length data) in
  if bus <? 3 then
    if len >? 8 then [length_violation len "CAN 2.0" "8"] else []
  else
    if len >? 64 then [length_violation len "CAN FD" "64"] else [].

(** Bus validity (lines 187-195): [bus not in [0, 1, 2]]. *)
Definition check_bus (bus : Z) : list SafetyViolation :=
  if bool_decide (bus ∈ [0; 1; 2]) then [] else [bus_violation bus].

(** General warnings based on the mode (lines 197-202); [vs] and [ws] are
    the violations and warnings collected so far. *)
Definition general_warnings (m : SafetyMode) (vs : list SafetyViolation)
    (ws : list string) (data : list Byte.byte) : list string :=
  if bool_decide (m = DEVELOPMENT) && is_empty vs then
    [development_warning]
  else if bool_decide (m = PRODUCTION) && is_empty vs && is_empty ws then
    if (length data =? 0)%nat then [empty_payload_warning] else []
  else [].

Definition validate_message (self : SafetyRules) (address : Z)
    (data : list Byte.byte) (bus : Z) : ValidationResult :=
  let '(vs0, ws0) := classify_address self address in
  let vs := vs0 ++ check_data_length data bus ++ check_bus bus in
  let ws := ws0 ++ general_warnings (mode self) vs ws0 data in
  {| passed := (length vs =? 0)%nat;
     violations := vs;
     warnings := ws |}.

(** ** [safety/rate_limiter.py] *)

Record RateLimitConfig : Type := mkRateLimitConfig {
  global_limit : Z;
  per_address_limit : Z;
  burst_size : Z;
  window_size : Q;
  critical_address_limit : Z
}.

Definition default_RateLimitConfig : RateLimitConfig :=
  {| global_limit := 1000;
     per_address_limit := 100;
     burst_size := 10;
     window_size := 1%Q;
     critical_address_limit := 10 |}.

(** [address_timestamps] and [burst_tokens] are [defaultdict]s: reading a
    missing key stores the default under it.  The maps below hold the
    keys that are stored; [timestamps_of] and [tokens_of] give the value
    a read returns, [touch_timestamps] and [touch_tokens] the dictionary
    after the read. *)
Record RateLimiter : Type := mkRateLimiter {
  config : RateLimitConfig;
  global_timestamps : list Q;
  address_timestamps : gmap Z (list Q);
  burst_tokens : gmap Z Z;
  last_clean : Q;
  critical_addresses : gset Z
}.

(** [RateLimiter.__init__]; [now] is the reading of [time.time()]. *)
Definition new_RateLimiter (cfg : option RateLimitConfig) (now : Q) : RateLimiter :=
  {| config := default default_RateLimitConfig cfg;
     global_timestamps := [];
     address_timestamps := ∅;
     burst_tokens := ∅;
     last_clean := now;
     critical_addresses := {[ 0x180; 0x200; 0x220; 0x260; 0x343; 0x394 ]} |}.

Definition Qltb (x y : Q) : bool := negb (Qle_bool y x).

Definition timestamps_of (self : RateLimiter) (address : Z) : list Q :=
  default [] (address_timestamps self !! address).

Definition tokens_of (self : RateLimiter) (address : Z) : Z :=
  default (burst_size (config self)) (burst_tokens self !! address).

Definition set_address_timestamps (self : RateLimiter) (m : gmap Z (list Q)) : RateLimiter :=
  {| config := config self;
     global_timestamps := global_timestamps self;
     address_timestamps := m;
     burst_tokens := burst_tokens self;
     last_clean := last_clean self;
     critical_addresses := critical_addresses self |}.

Definition set_burst_tokens (self : RateLimiter) (m : gmap Z Z) : RateLimiter :=
  {| config := config self;
     global_timestamps := global_timestamps self;
     address_timestamps := address_timestamps self;
     burst_tokens := m;
     last_clean := last_clean self;
     critical_addresses := critical_addresses self |}.

Definition set_global_timestamps (self : RateLimiter) (l : list Q) : RateLimiter :=
  {| config := config self;
     global_timestamps := l;
     address_timestamps := address_timestamps self;
     burst_tokens := burst_tokens self;
     last_clean := last_clean self;
     critical_addresses := critical_addresses self |}.

Definition set_last_clean (self : RateLimiter) (t : Q) : RateLimiter :=
  {| config := config self;
     global_timestamps := global_timestamps self;
     address_timestamps := address_timestamps self;
     burst_tokens := burst_tokens self;
     last_clean := t;
     critical_addresses := critical_addresses self |}.

Definition touch_timestamps (self : RateLimiter) (address : Z) : RateLimiter :=
  set_address_timestamps self
    (<[address := timestamps_of self address]> (address_timestamps self)).

Definition touch_tokens (self : RateLimiter) (address : Z) : RateLimiter :=
  set_burst_tokens self (<[address := tokens_of self address]> (burst_tokens self)).

(** [while timestamps and timestamps[0] < cutoff: timestamps.popleft()] *)
Fixpoint drop_old (cutoff : Q) (timestamps : list Q) : list Q :=
  match timestamps with
  | [] => []
  | t :: rest => if Qltb t cutoff then drop_old cutoff rest else timestamps
  end.

(** [_clean_old_timestamps]: every deque loses its old entries from the
    left, and the addresses whose deque became empty are deleted. *)
Definition _clean_old_timestamps (self : RateLimiter) (current_time : Q) : RateLimiter :=
  let cutoff := (current_time - window_size (config self))%Q in
  let cleaned :=
    omap (fun timestamps =>
            let kept := drop_old cutoff timestamps in
            if is_empty kept then None else Some kept)
         (address_timestamps self) in
  set_address_timestamps
    (set_global_timestamps self (drop_old cutoff (global_timestamps self)))
    cleaned.

(** "Clean old timestamps periodically" (lines 44-47). *)
Definition clean_if_due (self : RateLimiter) (current_time : Q) : RateLimiter :=
  if Qltb (1 # 10) (current_time - last_clean self)%Q then
    set_last_clean (_clean_old_timestamps self current_time) current_time
  else self.

(** The limit that applies to an address (lines 53-57). *)
Definition limit_for (self : RateLimiter) (address : Z) : Z :=
  if bool_decide (address ∈ critical_addresses self)
  then critical_address_limit (config self)
  else per_address_limit (config self).

Definition global_limit_message (self : RateLimiter) : string :=
  "Global rate limit exceeded (" +:+ str_int (global_limit (config self)) +:+ " msg/s)".

Definition address_limit_message (address limit : Z) : string :=
  "Rate limit exceeded for 0x" +:+ format_03X address
  +:+ " (" +:+ str_int limit +:+ " msg/s)".

(** [check_and_update] after the periodic clean (lines 49-79).
    The comparison [address_count < limit / 2] is between an int and the
    float quotient of two ints, which is [2 * address_count < limit]. *)
Definition check_limits_and_record (self : RateLimiter) (address : Z) (current_time : Q)
  : RateLimiter * (bool * option string) :=
  if Z.of_nat (length (global_timestamps self)) >=? global_limit (config self) then
    (self, (false, Some (global_limit_message self)))
  else
    let limit := limit_for self address in
    let self := touch_timestamps self address in
    let address_count := Z.of_nat (length (timestamps_of self address)) in
    let after_burst : RateLimiter + RateLimiter :=
      if address_count >=? limit then
        let self := touch_tokens self address in
        if tokens_of self address >? 0 then
          inl (set_burst_tokens self
                 (<[address := tokens_of self address - 1]> (burst_tokens self)))
        else inr self
      else inl self in
    match after_burst with
    | inr self => (self, (false, Some (address_limit_message address limit)))
    | inl self =>
        let self := set_global_timestamps self (global_timestamps self ++ [current_time]) in
        let self :=
          set_address_timestamps self
            (<[address := timestamps_of self address ++ [current_time]]>
               (address_timestamps self)) in
        let self :=
          if 2 * address_count <? limit then
            set_burst_tokens self
              (<[address := Z.min (tokens_of self address + 1) (burst_size (config self))]>
                 (burst_tokens self))
          else self in
        (self, (true, None))
    end.

(** [check_and_update]; [current_time] is the reading of [time.time()]. *)
Definition check_and_update (self : RateLimiter) (address : Z) (current_time : Q)
  : RateLimiter * (bool * option string) :=
  check_limits_and_record (clean_if_due self current_time) address current_time.

(** Calls made one after the other on the same limiter, each with the
    clock reading at the time of the call. *)
Fixpoint run_calls (self : RateLimiter) (calls : list (Z * Q))
  : RateLimiter * list (bool * option string) :=
  match calls with
  | [] => (self, [])
  | (address, current_time) :: rest =>
      let '(self, answer) := check_and_update self address current_time in
      let '(self, answers) := run_calls self rest in
      (self, answer :: answers)
  end.

(** [get_current_rate]: the size of the window of an address (read with
    [dict.get], which stores nothing), or of the global window. *)
Definition get_current_rate (self : RateLimiter) (address : option Z) : Z :=
  match address with
  | Some a => Z.of_nat (length (default [] (address_timestamps self !! a)))
  | None => Z.of_nat (length (global_timestamps self))
  end.

(** [reset]; [now] is the reading of [time.time()]. *)
Definition reset (self : RateLimiter) (now : Q) : RateLimiter :=
  {| config := config self;
     global_timestamps := [];
     address_timestamps := ∅;
     burst_tokens := ∅;
     last_clean := now;
     critical_addresses := critical_addresses self |}.

(** ** [core/can_interface.py] *)

Inductive PyException : Type :=
  | ValueError (msg : string)
  | PermissionError (msg : string)
  | RuntimeError (msg : string)
  | IndexError
  | TransportFailure (msg : string).

Record CANMessage : Type := mkCANMessage {
  msg_address : Z;
  msg_data : list Byte.byte;
  msg_bus : Z;
  msg_timestamp : Q
}.

(** [f"{z:X}"] *)
Definition format_X (z : Z) : string :=
  (if z <? 0 then "-" else "") +:+ upper_hex (Z.abs_N z).

(** [CANMessage(address, data, bus)] with its [__post_init__] checks; the
    data is [bytes] by its type. *)
Definition new_CANMessage (address : Z) (data : list Byte.byte) (bus : Z) (now : Q)
  : PyException + CANMessage :=
  if negb ((0 <=? address) && (address <=? 0x1FFFFFFF)) then
    inl (ValueError ("Invalid CAN address: 0x" +:+ format_X address))
  else if negb ((0 <=? bus) && (bus <=? 2)) then
    inl (ValueError ("Invalid bus number: " +:+ str_int bus))
  else inr (mkCANMessage address data bus now).

Record Stats : Type := mkStats {
  messages_sent : Z;
  messages_received : Z;
  errors : Z;
  safety_violations : Z
}.

(** The calls an interface makes to its collaborators, oldest first. *)
Inductive Call : Type :=
  | CallValidate (address : Z) (data : list Byte.byte) (bus : Z)
  | CallRateLimiter (address : Z) (allowed : bool)
  | CallSendRaw (address : Z) (data : list Byte.byte) (bus : Z).

Section BaseCANInterface.

(** The state behind the abstract method [_send_raw], and the method:
    it gives the state after the call and the exception it raised, if
    any. *)
Variable Transport : Type.
Variable _send_raw :
  Transport -> Z -> list Byte.byte -> Z -> Transport * option PyException.

(** [calls] is a history variable: it is not a field of the class. *)
Record BaseCANInterface : Type := mkBaseCANInterface {
  safety : option SafetyRules;
  rate_limiter : option RateLimiter;
  stats : Stats;
  transport : Transport;
  calls : list Call
}.

Definition set_stats (self : BaseCANInterface) (st : Stats) : BaseCANInterface :=
  {| safety := safety self; rate_limiter := rate_limiter self; stats := st;
     transport := transport self; calls := calls self |}.

Definition set_rate_limiter (self : BaseCANInterface) (rl : RateLimiter) : BaseCANInterface :=
  {| safety := safety self; rate_limiter := Some rl; stats := stats self;
     transport := transport self; calls := calls self |}.

Definition set_transport (self : BaseCANInterface) (tr : Transport) : BaseCANInterface :=
  {| safety := safety self; rate_limiter := rate_limiter self; stats := stats self;
     transport := tr; calls := calls self |}.

Definition record_call (self : BaseCANInterface) (c : Call) : BaseCANInterface :=
  {| safety := safety self; rate_limiter := rate_limiter self; stats := stats self;
     transport := transport self; calls := calls self ++ [c] |}.

Definition count_safety_violation (st : Stats) : Stats :=
  {| messages_sent := messages_sent st; messages_received := messages_received st;
     errors := errors st; safety_violations := safety_violations st + 1 |}.

Definition count_sent (st : Stats) : Stats :=
  {| messages_sent := messages_sent st + 1; messages_received := messages_received st;
     errors := errors st; safety_violations := safety_violations st |}.

Definition count_error (st : Stats) : Stats :=
  {| messages_sent := messages_sent st; messages_received := messages_received st;
     errors := errors st + 1; safety_violations := safety_violations st |}.

(** A statement of [send] either raises or goes on with a value. *)
Definition Step (A : Type) : Type := BaseCANInterface * (PyException + A).

Definition and_then {A B : Type} (m : Step A) (k : BaseCANInterface -> A -> Step B)
  : Step B :=
  match m with
  | (self, inl e) => (self, inl e)
  | (self, inr a) => k self a
  end.

(** "Safety validation" (lines 89-100). *)
Definition safety_stage (self : BaseCANInterface) (address : Z)
    (data : list Byte.byte) (bus : Z) (force : bool) : Step ValidationResult :=
  let validation_result := {| passed := true; violations := []; warnings := [] |} in
  match safety self with
  | Some rules =>
      if negb force then
        let validation_result := validate_message rules address data bus in
        let self := record_call self (CallValidate address data bus) in
        if negb (passed validation_result) then
          let self := set_stats self (count_safety_violation (stats self)) in
          if negb (result_can_override validation_result) then
            match violations validation_result with
            | v :: _ => (self, inl (PermissionError ("Cannot send message: " +:+ message v)))
            | [] => (self, inl IndexError)
            end
          else (self, inr validation_result)
        else (self, inr validation_result)
      else (self, inr validation_result)
  | None => (self, inr validation_result)
  end.

(** "Rate limiting" (lines 102-106). *)
Definition rate_limit_stage (self : BaseCANInterface) (address : Z) (now : Q)
  : Step unit :=
  match rate_limiter self with
  | Some limiter =>
      let '(limiter, (allowed, error_msg)) := check_and_update limiter address now in
      let self := record_call (set_rate_limiter self limiter) (CallRateLimiter address allowed) in
      if negb allowed then
        (self, inl (RuntimeError ("Rate limit exceeded: " +:+ default "None" error_msg)))
      else (self, inr tt)
  | None => (self, inr tt)
  end.

(** "Actually send the message" (lines 111-118). *)
Definition transmit_stage (self : BaseCANInterface) (address : Z)
    (data : list Byte.byte) (bus : Z) : Step unit :=
  let '(tr, raised) := _send_raw (transport self) address data bus in
  let self := record_call (set_transport self tr) (CallSendRaw address data bus) in
  match raised with
  | None => (set_stats self (count_sent (stats self)), inr tt)
  | Some e => (set_stats self (count_error (stats self)), inl e)
  end.

(** [BaseCANInterface.send]; [now] is the clock reading during the call. *)
Definition send (self : BaseCANInterface) (address : Z) (data : list Byte.byte)
    (bus : Z) (force : bool) (now : Q) : Step ValidationResult :=
  match new_CANMessage address data bus now with
  | inl e => (self, inl e)
  | inr _ =>
      and_then (safety_stage self address data bus force) (fun self validation_result =>
      and_then (rate_limit_stage self address now) (fun self _ =>
      and_then (transmit_stage self address data bus) (fun self _ =>
      (self, inr validation_result))))
  end.

End BaseCANInterface.

Arguments safety {Transport} _.
Arguments rate_limiter {Transport} _.
Arguments stats {Transport} _.
Arguments transport {Transport} _.
Arguments calls {Transport} _.
Arguments mkBaseCANInterface {Transport} _ _ _ _ _.
Arguments send {Transport} _ _ _ _ _ _ _.
Arguments safety_stage {Transport} _ _ _ _ _.
Arguments rate_limit_stage {Transport} _ _ _.
Arguments transmit_stage {Transport} _ _ _ _ _.

(** [MockCANInterface._send_raw]: the transport is the list
    [sent_messages]; [now] is the clock reading that stamps the message. *)
Definition mock_send_raw (now : Q) (sent_messages : list CANMessage) (address : Z)
    (data : list Byte.byte) (bus : Z) : list CANMessage * option PyException :=
  match new_CANMessage address data bus now with
  | inl e => (sent_messages, Some e)
  | inr msg => (sent_messages ++ [msg], None)
  end.

Definition new_interface (safety : option SafetyRules) (rate_limiter : option RateLimiter)
  : BaseCANInterface (list CANMessage) :=
  mkBaseCANInterface safety rate_limiter (mkStats 0 0 0 0) [] [].

(** [BaseCANInterface.receive], over the abstract method [_receive_raw]:
    it gives the state after the call and the messages, or the exception
    it raised. *)
Definition count_received (st : Stats) (n : Z) : Stats :=
  {| messages_sent := messages_sent st; messages_received := messages_received st + n;
     errors := errors st; safety_violations := safety_violations st |}.

Definition receive {Transport : Type}
    (_receive_raw : Transport -> option Q -> Transport * (PyException + list CANMessage))
    (self : BaseCANInterface Transport) (timeout : option Q)
  : BaseCANInterface Transport * (PyException + list CANMessage) :=
  let '(tr, outcome) := _receive_raw (transport self) timeout in
  let self := set_transport Transport self tr in
  match outcome with
  | inr messages =>
      (set_stats Transport self
         (count_received (stats self) (Z.of_nat (length messages))),
       inr messages)
  | inl e => (set_stats Transport self (count_error (stats self)), inl e)
  end.

(** [MockCANInterface] with both of its lists: the messages sent and the
    receive queue. *)
Record MockState : Type := mkMockState {
  sent_messages : list CANMessage;
  receive_queue : list CANMessage
}.

Definition mock_state_send_raw (now : Q) (st : MockState) (address : Z)
    (data : list Byte.byte) (bus : Z) : MockState * option PyException :=
  let '(sent, raised) := mock_send_raw now (sent_messages st) address data bus in
  ({| sent_messages := sent; receive_queue := receive_queue st |}, raised).

(** [MockCANInterface._receive_raw]: a copy of the queue, which is then
    cleared. *)
Definition mock_receive_raw (st : MockState) (timeout : option Q)
  : MockState * (PyException + list CANMessage) :=
  ({| sent_messages := sent_messages st; receive_queue := [] |},
   inr (receive_queue st)).

(** [MockCANInterface.add_receive_message]; [now] stamps the message. *)
Definition add_receive_message (now : Q) (self : BaseCANInterface MockState)
    (address : Z) (data : list Byte.byte) (bus : Z)
  : BaseCANInterface MockState * (PyException + unit) :=
  match new_CANMessage address data bus now with
  | inl e => (self, inl e)
  | inr msg =>
      (set_transport MockState self
         {| sent_messages := sent_messages (transport self);
            receive_queue := receive_queue (transport self) ++ [msg] |},
       inr tt)
  end.

(** ** [can_cli.py] and [can_cli_v2.py]

    The two scripts carry their own message class, rules and rate
    limiter.  The limiter is the same in both; the rules differ in the
    length check, for which [can_cli.py] looks at the [fd] flag of the
    message. *)

Module Script.

Record CANMessage : Type := mkCANMessage {
  address : Z;
  data : list Byte.byte;
  bus : Z;
  fd : bool
}.

Definition CRITICAL_ADDRESSES : gmap Z string :=
  list_to_map
    [ (0x180, "STEERING");
      (0x200, "BRAKE");
      (0x220, "THROTTLE");
      (0x2E4, "TRANSMISSION");
      (0x191, "CRUISE_CONTROL");
      (0x1D2, "PCM_CRUISE");
      (0x1FA, "CRUISE_BUTTONS") ].

(** The checks on the mode and the address, the same in both scripts:
    the reason of the rejection, if any. *)
Definition check_address (msg : CANMessage) (mode : SafetyMode) : option string :=
  match CRITICAL_ADDRESSES !! address msg with
  | Some critical_type =>
      if bool_decide (mode = PRODUCTION) then
        Some ("Cannot send to critical address " +:+ critical_type
              +:+ " in PRODUCTION mode")
      else if bool_decide (mode = TESTING)
              && bool_decide (critical_type ∈ ["STEERING"; "BRAKE"; "THROTTLE"]) then
        Some ("Cannot send to " +:+ critical_type +:+ " even in TESTING mode")
      else None
  | None => None
  end.

Definition check_bus_number (msg : CANMessage) : bool * string :=
  if bool_decide (bus msg ∈ [0; 1; 2]) then (true, "Message validated")
  else (false, "Invalid bus number: " +:+ str_int (bus msg)).

(** [SafetyRules.validate_message] of [can_cli.py]. *)
Definition validate_message (msg : CANMessage) (mode : SafetyMode) : bool * string :=
  if bool_decide (mode = LOCKED) then (false, "Cannot send messages in LOCKED mode")
  else
    match check_address msg mode with
    | Some reason => (false, reason)
    | None =>
        if fd msg && (Z.of_nat (length (data msg)) >? 64) then
          (false, "CAN-FD data cannot exceed 64 bytes")
        else if negb (fd msg) && (Z.of_nat (length (data msg)) >? 8) then
          (false, "Standard CAN data cannot exceed 8 bytes")
        else check_bus_number msg
    end.

(** [SafetyRules.validate_message] of [can_cli_v2.py], whose messages
    have no [fd] flag. *)
Definition validate_message_v2 (msg : CANMessage) (mode : SafetyMode) : bool * string :=
  if bool_decide (mode = LOCKED) then (false, "Cannot send messages in LOCKED mode")
  else
    match check_address msg mode with
    | Some reason => (false, reason)
    | None =>
        if Z.of_nat (length (data msg)) >? 8 then
          (false, "Standard CAN data cannot exceed 8 bytes")
        else check_bus_number msg
    end.

Record RateLimiter : Type := mkRateLimiter {
  message_times : gmap Z (list Q);
  global_times : list Q;
  global_limit : Z;
  per_address_limit : Z;
  window_size : Q
}.

(** [RateLimiter.__init__] *)
Definition new_RateLimiter : RateLimiter :=
  {| message_times := ∅;
     global_times := [];
     global_limit := 100;
     per_address_limit := 20;
     window_size := 1%Q |}.

(** [[t for t in times if t > cutoff_time]] *)
Definition keep_recent (cutoff_time : Q) (times : list Q) : list Q :=
  filter (fun t => Qltb cutoff_time t = true) times.

(** [_clean_old_entries]: every list keeps its recent entries, and the
    addresses whose list became empty are deleted. *)
Definition _clean_old_entries (self : RateLimiter) (current_time : Q) : RateLimiter :=
  let cutoff_time := (current_time - window_size self)%Q in
  {| message_times :=
       omap (fun times =>
               let kept := keep_recent cutoff_time times in
               if is_empty kept then None else Some kept)
            (message_times self);
     global_times := keep_recent cutoff_time (global_times self);
     global_limit := global_limit self;
     per_address_limit := per_address_limit self;
     window_size := window_size self |}.

(** [check_rate]; [current_time] is the reading of [time.time()]. *)
Definition check_rate (self : RateLimiter) (address : Z) (current_time : Q)
  : RateLimiter * (bool * string) :=
  let self := _clean_old_entries self current_time in
  if Z.of_nat (length (global_times self)) >=? global_limit self then
    (self, (false, "Global rate limit exceeded ("
                   +:+ str_int (global_limit self) +:+ " msg/s)"))
  else
    match message_times self !! address with
    | Some times =>
        if Z.of_nat (length times) >=? per_address_limit self then
          (self, (false, "Per-address rate limit exceeded ("
                         +:+ str_int (per_address_limit self) +:+ " msg/s)"))
        else (self, (true, "Within rate limits"))
    | None => (self, (true, "Within rate limits"))
    end.




End Script.

(** ** Vocabulary of the statements *)

(** What the length and bus checks of [validate_message] contribute. *)
Definition structural_violations (data : list Byte.byte) (bus : Z) : list SafetyViolation :=
  check_data_length data bus ++ check_bus bus.

(** The number of violations that carry a given rule identifier. *)
Definition count_rule (r : string) (vs : list SafetyViolation) : nat :=
  length (filter (fun v => rule v = r) vs).

(** The severity the policy table gives an address, ["critical"] for an
    address it does not know. *)
Definition policy_severity_or_critical (address : Z) : string :=
  match CRITICAL_ADDRESSES !! address with
  | Some info => info_severity info
  | None => "critical"
  end.

(** The branch [check_and_update] takes, read off the sizes of the
    windows and the tokens of the address after the periodic clean. *)
Inductive Verdict : Type :=
  | DenyGlobal
  | DenyAddress
  | AllowUnderLimit
  | AllowBurst.

Definition verdict (self : RateLimiter) (address : Z) : Verdict :=
  if Z.of_nat (length (global_timestamps self)) >=? global_limit (config self) then
    DenyGlobal
  else if Z.of_nat (length (timestamps_of self address)) >=? limit_for self address then
    if tokens_of self address >? 0 then AllowBurst else DenyAddress
  else AllowUnderLimit.

(** Every recorded timestamp is at least [bound]. *)
Definition stamps_ge (bound : Q) (self : RateLimiter) : Prop :=
  Forall (Qle bound) (global_timestamps self)
  /\ forall address, Forall (Qle bound) (timestamps_of self address).

(** Two limiters agree on everything a decision depends on: the
    configuration, the critical set, the sizes of the windows and the
    tokens. *)
Definition same_counts (s1 s2 : RateLimiter) : Prop :=
  config s1 = config s2
  /\ critical_addresses s1 = critical_addresses s2
  /\ length (global_timestamps s1) = length (global_timestamps s2)
  /\ (forall address, length (timestamps_of s1 address) = length (timestamps_of s2 address))
  /\ (forall address, tokens_of s1 address = tokens_of s2 address).

(** The clock reading [t] lies in the interval of one window length [w]
    that starts at [bound]. *)
Definition in_window (bound w t : Q) : Prop :=
  (bound <= t)%Q /\ (t - w <= bound)%Q.

(** The configuration of the per-address scenario: a limit of 3 messages
    per address, the given burst size, defaults elsewhere. *)
Definition limit3_config (burst : Z) : RateLimitConfig :=
  {| global_limit := 1000;
     per_address_limit := 3;
     burst_size := burst;
     window_size := 1%Q;
     critical_address_limit := 10 |}.

Definition address_limit_denial : bool * option string :=
  (false, Some "Rate limit exceeded for 0x100 (3 msg/s)").

(** What [CANMessage.__post_init__] accepts. *)
Definition well_formed_frame (address bus : Z) : Prop :=
  0 <= address <= 0x1FFFFFFF /\ 0 <= bus <= 2.

(** The frames that were passed to [_send_raw], oldest first. *)
Definition handed_frames (cs : list Call) : list (Z * list Byte.byte * Z) :=
  omap (fun c => match c with
                 | CallSendRaw address data bus => Some (address, data, bus)
                 | _ => None
                 end) cs.

(** [self.safety and not force]: whether [send] consults the rules. *)
Definition rules_consulted {Transport : Type} (self : BaseCANInterface Transport)
    (force : bool) : bool :=
  match safety self with
  | Some _ => negb force
  | None => false
  end.

(** The result [send] works with: the one of [validate_message] when the
    rules are consulted, the initial passing one otherwise. *)
Definition effective_result {Transport : Type} (self : BaseCANInterface Transport)
    (address : Z) (data : list Byte.byte) (bus : Z) (force : bool) : ValidationResult :=
  match safety self with
  | Some rules =>
      if force then {| passed := true; violations := []; warnings := [] |}
      else validate_message rules address data bus
  | None => {| passed := true; violations := []; warnings := [] |}
  end.

(** The rules are consulted, the frame fails them, and the failure cannot
    be overridden. *)
Definition rejected_by_rules {Transport : Type} (self : BaseCANInterface Transport)
    (address : Z) (data : list Byte.byte) (bus : Z) (force : bool) : bool :=
  let result := effective_result self address data bus force in
  rules_consulted self force && negb (passed result) && negb (result_can_override result).

(** The limiter of the interface, if any, denies the address at [now]. *)
Definition denied_by_limiter {Transport : Type} (self : BaseCANInterface Transport)
    (address : Z) (now : Q) : bool :=
  match rate_limiter self with
  | Some limiter => negb (check_and_update limiter address now).2.1
  | None => false
  end.

(** The counters after the rules stage of [send]: one more safety
    violation when the rules are consulted and the frame fails them. *)
Definition stats_after_rules {Transport : Type} (self : BaseCANInterface Transport)
    (address : Z) (data : list Byte.byte) (bus : Z) (force : bool) : Stats :=
  if rules_consulted self force
     && negb (passed (effective_result self address data bus force))
  then count_safety_violation (stats self)
  else stats self.

(** The limiter of the interface after it has been asked about the
    address at [now]. *)
Definition limiter_after_check {Transport : Type} (self : BaseCANInterface Transport)
    (address : Z) (now : Q) : option RateLimiter :=
  (fun limiter => (check_and_update limiter address now).1) <$> rate_limiter self.

(** Goals about membership in a list of at most one warning. *)
Ltac settle_advisory :=
  intros;
  repeat match goal with
         | H : _ /\ _ |- _ => destruct H
         | H : _ \/ _ |- _ => destruct H
         | H : _ ∈ [] |- _ => by apply elem_of_nil in H
         | H : _ ∈ [_] |- _ => apply list_elem_of_singleton in H
         end;
  first [ done | congruence | discriminate | right; by left | tauto ].

(** Closed decidable facts (set membership, equality of ints) are settled
    by evaluating their decision procedure. *)
Ltac decide_by_computation :=
  apply (bool_decide_unpack _); vm_compute; exact I.

(** The number of calls that were allowed among the answers of a run. *)
Definition count_allowed (answers : list (bool * option string)) : nat :=
  length (filter (fun answer => answer.1 = true) answers).

(** The tokens of every address lie between 0 and the burst size. *)
Definition tokens_bounded (self : RateLimiter) : Prop :=
  forall address, 0 <= tokens_of self address <= burst_size (config self).

(** The window of every address holds at most the limit of the address
    (0 if that is negative) plus the tokens the address has spent. *)
Definition windows_bounded (self : RateLimiter) : Prop :=
  forall address,
    Z.max (Z.of_nat (length (timestamps_of self address)))
          (Z.max (limit_for self address) 0)
    + tokens_of self address
    <= Z.max (limit_for self address) 0 + burst_size (config self).

(** The number of allowed calls among those of a run made for [address]. *)
Definition admitted_for (address : Z) (calls : list (Z * Q))
    (answers : list (bool * option string)) : nat :=
  count_allowed (filter (fun ca => ca.1.1 = address) (zip calls answers)).*2.

(** Every window is in the order of the clock and holds no reading later
    than [now]. *)
Definition windows_sorted (now : Q) (self : RateLimiter) : Prop :=
  (StronglySorted Qle (global_timestamps self)
   /\ Forall (fun x => (x <= now)%Q) (global_timestamps self))
  /\ forall address,
       StronglySorted Qle (timestamps_of self address)
       /\ Forall (fun x => (x <= now)%Q) (timestamps_of self address).

(** The clock readings of the calls never go back, starting from [now]. *)
Fixpoint clock_monotone (now : Q) (calls : list (Z * Q)) : Prop :=
  match calls with
  | [] => True
  | (_, t) :: rest => (now <= t)%Q /\ clock_monotone t rest
  end.

(** * String formatting *)

Example format_03X_three_digits : format_03X 0x180 = "180".
Proof. reflexivity. Qed.

Example format_03X_zero_filled : format_03X 10 = "00A".
Proof. reflexivity. Qed.

Example format_03X_wide : format_03X 0x1FFFFFFF = "1FFFFFFF".
Proof. reflexivity. Qed.

Example format_03X_negative : format_03X (-5) = "-05".
Proof. reflexivity. Qed.

Example format_X_wide : format_X 0x20000000 = "20000000".
Proof. reflexivity. Qed.

Example str_int_values : str_int 0 = "0" /\ str_int 64 = "64" /\ str_int (-1) = "-1".
Proof. by split_and!. Qed.

(** * The rule engine *)

Section RuleEngine.

Implicit Types (self : SafetyRules) (address bus : Z) (data : list Byte.byte).
Implicit Types (v : SafetyViolation).

Lemma validate_violations self address data bus :
  violations (validate_message self address data bus)
  = (classify_address self address).1 ++ structural_violations data bus.
Proof.
  unfold validate_message, structural_violations.
  by destruct (classify_address self address).
Qed.

Lemma validate_warnings self address data bus :
  warnings (validate_message self address data bus)
  = (classify_address self address).2
    ++ general_warnings (mode self)
         (violations (validate_message self address data bus))
         (classify_address self address).2 data.
Proof.
  unfold validate_message.
  by destruct (classify_address self address).
Qed.

Lemma validate_passed self address data bus :
  passed (validate_message self address data bus)
  = is_empty (violations (validate_message self address data bus)).
Proof.
  unfold validate_message.
  destruct (classify_address self address) as [vs0 ws0]; simpl.
  by destruct (vs0 ++ _).
Qed.

Lemma structural_rules data bus v :
  v ∈ structural_violations data bus ->
  rule v = "invalid_data_length" \/ rule v = "invalid_bus".
Proof.
  unfold structural_violations, check_data_length, check_bus.
  intros Hv. apply elem_of_app in Hv as [Hv | Hv].
  - left. destruct (bus <? 3); destruct (_ >? _);
      first [ by apply elem_of_nil in Hv | by apply list_elem_of_singleton in Hv as -> ].
  - right. destruct (bool_decide _);
      first [ by apply elem_of_nil in Hv | by apply list_elem_of_singleton in Hv as -> ].
Qed.

Lemma classify_locked self address :
  mode self = LOCKED -> classify_address self address = ([locked_violation], []).
Proof. intros Hm. unfold classify_address. by rewrite Hm. Qed.

Lemma classify_blocked self address :
  mode self <> LOCKED -> address ∈ blocked_addresses self ->
  classify_address self address = ([blocked_violation (mode self) address], []).
Proof.
  intros Hm Hb. unfold classify_address.
  rewrite bool_decide_eq_false_2 by done.
  by rewrite bool_decide_eq_true_2.
Qed.

Lemma classify_critical self address info :
  mode self <> LOCKED -> address ∉ blocked_addresses self ->
  CRITICAL_ADDRESSES !! address = Some info ->
  classify_address self address
  = if bool_decide (mode self = PRODUCTION)
    then ([critical_violation info], [])
    else ([], [critical_warning info address]).
Proof.
  intros Hm Hb Hi. unfold classify_address.
  rewrite bool_decide_eq_false_2 by done.
  rewrite bool_decide_eq_false_2 by done.
  by rewrite Hi.
Qed.

Lemma count_rule_app r (vs ws : list SafetyViolation) :
  count_rule r (vs ++ ws) = (count_rule r vs + count_rule r ws)%nat.
Proof. unfold count_rule. by rewrite filter_app, length_app. Qed.

Lemma count_rule_absent r (vs : list SafetyViolation) :
  (forall v, v ∈ vs -> rule v <> r) -> count_rule r vs = 0%nat.
Proof.
  intros Hvs. unfold count_rule.
  induction vs as [|v vs IH]; [done|].
  rewrite filter_cons_False by (apply Hvs; left).
  apply IH. intros w Hw. apply Hvs. by right.
Qed.

Lemma count_rule_structural r data bus :
  r <> "invalid_data_length" -> r <> "invalid_bus" ->
  count_rule r (structural_violations data bus) = 0%nat.
Proof.
  intros H1 H2. apply count_rule_absent.
  intros v Hv. destruct (structural_rules _ _ _ Hv); congruence.
Qed.


(** C2. An address of the policy table that the mode does not block is
    treated in one of two ways.  In PRODUCTION the result holds exactly
    one [critical_message] violation, which requires confirmation, can
    be overridden and has the severity of the table entry, and there is
    no warning.  In TESTING and DEVELOPMENT the warning for the address
    is issued and the address check adds no violation: whatever is in
    the list comes from the length and bus checks.  So the violation
    and the warning never occur together. *)
Theorem critical_address_violation_or_warning self address data bus info :
  address ∉ blocked_addresses self ->
  CRITICAL_ADDRESSES !! address = Some info ->
  let r := validate_message self address data bus in
  (mode self = PRODUCTION ->
     count_rule "critical_message" (violations r) = 1%nat
     /\ violations r = critical_violation info :: structural_violations data bus
     /\ requires_confirmation (critical_violation info) = true
     /\ can_override (critical_violation info) = true
     /\ severity (critical_violation info) = info_severity info
     /\ warnings r = [])
  /\ (mode self = TESTING \/ mode self = DEVELOPMENT ->
     critical_warning info address ∈ warnings r
     /\ count_rule "critical_message" (violations r) = 0%nat
     /\ violations r = structural_violations data bus).
Proof.
  intros Hb Hi r. split.
  - intros Hm.
    assert (Hv : violations r = critical_violation info :: structural_violations data bus).
    { unfold r. rewrite validate_violations.
      rewrite (classify_critical _ _ info) by (done || by rewrite Hm).
      by rewrite Hm. }
    split_and!; [| done..|].
    + rewrite Hv. change (_ :: ?l) with ([critical_violation info] ++ l).
      rewrite count_rule_app, count_rule_structural by done. done.
    + unfold r. rewrite validate_warnings. fold r. rewrite Hv.
      rewrite (classify_critical _ _ info) by (done || by rewrite Hm).
      rewrite Hm. done.
  - intros Hm.
    assert (Hl : mode self <> LOCKED) by (destruct Hm as [-> | ->]; done).
    assert (Hp : bool_decide (mode self = PRODUCTION) = false).
    { apply bool_decide_eq_false_2. destruct Hm as [-> | ->]; done. }
    assert (Hv : violations r = structural_violations data bus).
    { unfold r. rewrite validate_violations.
      rewrite (classify_critical _ _ info) by done. by rewrite Hp. }
    split_and!; [| | done].
    + unfold r. rewrite validate_warnings.
      rewrite (classify_critical _ _ info) by done. rewrite Hp. by left.
    + rewrite Hv. by apply count_rule_structural.
Qed.

(** C3 (as the code has it). A frame whose address is in the blocked
    set of a mode other than LOCKED gets a [blocked_address] violation
    whose severity is always ["critical"], whatever the policy table
    says of the address; it can be overridden exactly in DEVELOPMENT
    mode and never requires confirmation. *)
Theorem blocked_address_is_always_critical self address data bus :
  mode self <> LOCKED ->
  address ∈ blocked_addresses self ->
  let r := validate_message self address data bus in
  exists v, violations r = v :: structural_violations data bus
    /\ count_rule "blocked_address" (violations r) = 1%nat
    /\ rule v = "blocked_address"
    /\ severity v = "critical"
    /\ can_override v = bool_decide (mode self = DEVELOPMENT)
    /\ requires_confirmation v = false.
Proof.
  intros Hm Hb r. exists (blocked_violation (mode self) address).
  assert (Hv : violations r
               = blocked_violation (mode self) address :: structural_violations data bus).
  { unfold r. rewrite validate_violations. by rewrite classify_blocked. }
  split_and!; [done | | done..].
  rewrite Hv. change (_ :: ?l) with ([blocked_violation (mode self) address] ++ l).
  by rewrite count_rule_app, count_rule_structural.
Qed.

(** C4. On a bus that the engine treats as classic CAN ([bus < 3]) a
    payload of more than 8 bytes yields, in every mode, an
    [invalid_data_length] violation of severity ["high"] that cannot be
    overridden; a payload of at most 8 bytes yields no such
    violation. *)
Theorem classic_can_payload_limit self address data bus :
  bus < 3 ->
  let r := validate_message self address data bus in
  ((length data > 8)%nat ->
     exists v, v ∈ violations r /\ rule v = "invalid_data_length"
       /\ can_override v = false /\ severity v = "high"
       /\ result_can_override r = false /\ passed r = false)
  /\ ((length data <= 8)%nat ->
     count_rule "invalid_data_length" (violations r) = 0%nat).
Proof.
  intros Hbus r.
  assert (Hlt : (bus <? 3) = true) by lia.
  split.
  - intros Hlen.
    set (v := length_violation (Z.of_nat (length data)) "CAN 2.0" "8").
    assert (Hin : v ∈ violations r).
    { unfold r. rewrite validate_violations. apply elem_of_app. right.
      unfold structural_violations, check_data_length. rewrite Hlt.
      replace (Z.of_nat (length data) >? 8) with true by lia.
      apply elem_of_app. left. by left. }
    exists v. split_and!; [done..| |].
    + unfold result_can_override. apply not_true_is_false. intros Hall.
      rewrite forallb_forall in Hall.
      apply list_elem_of_In, Hall in Hin. done.
    + unfold r. rewrite validate_passed. fold r.
      destruct (violations r); [by apply elem_of_nil in Hin | done].
  - intros Hlen. unfold r. rewrite validate_violations, count_rule_app.
    assert (Hc : count_rule "invalid_data_length" (classify_address self address).1 = 0%nat).
    { apply count_rule_absent. unfold classify_address. intros v.
      repeat case_match; simpl; intros Hv;
        first [ by apply elem_of_nil in Hv
              | by apply list_elem_of_singleton in Hv as -> ]. }
    rewrite Hc. unfold structural_violations, check_data_length. rewrite Hlt.
    replace (Z.of_nat (length data) >? 8) with false by lia.
    apply count_rule_absent. intros v Hv. simpl in Hv.
    unfold check_bus in Hv. destruct (bool_decide _);
      first [ by apply elem_of_nil in Hv
            | by apply list_elem_of_singleton in Hv as -> ].
Qed.

(** C5. For every result of [validate_message]: [passed] holds exactly
    when there is no violation, the result requires confirmation
    exactly when some violation does, and it can be overridden exactly
    when every violation can (so also when there is none). *)
Theorem validation_result_invariant self address data bus :
  let r := validate_message self address data bus in
  (passed r = true <-> violations r = [])
  /\ (result_requires_confirmation r = true
      <-> exists v, v ∈ violations r /\ requires_confirmation v = true)
  /\ (result_can_override r = true
      <-> forall v, v ∈ violations r -> can_override v = true)
  /\ (violations r = [] -> result_can_override r = true).
Proof.
  intros r. split_and!.
  - unfold r. rewrite validate_passed. by destruct (violations _).
  - unfold result_requires_confirmation. rewrite existsb_exists.
    split; intros (v & Hv & Hc); exists v; split; try done;
      by apply list_elem_of_In.
  - unfold result_can_override. rewrite forallb_forall.
    split; intros Hall v Hv; apply Hall; by apply list_elem_of_In.
  - intros Hnil. unfold result_can_override. by rewrite Hnil.
Qed.

(** C10. The length limit is chosen by the test [bus < 3] alone.  On a
    bus numbered 3 or more the 64-byte limit applies: a payload of 9 to
    64 bytes gets no [invalid_data_length] violation, and the length
    and bus checks together yield the [invalid_bus] violation only,
    while a longer payload is reported against the CAN FD limit.  A
    frame on a negative bus gets [invalid_bus] and is held to 8 bytes:
    longer payloads are reported against the CAN 2.0 limit, shorter
    ones are not reported. *)
Theorem length_limit_follows_bus_number self address data bus :
  let r := validate_message self address data bus in
  (3 <= bus ->
     ((9 <= length data <= 64)%nat ->
        count_rule "invalid_data_length" (violations r) = 0%nat
        /\ count_rule "invalid_bus" (violations r) = 1%nat
        /\ structural_violations data bus = [bus_violation bus]
        /\ violations r = (classify_address self address).1 ++ [bus_violation bus]
        /\ ((classify_address self address).1 = [] -> violations r = [bus_violation bus]))
     /\ ((length data > 64)%nat ->
        length_violation (Z.of_nat (length data)) "CAN FD" "64" ∈ violations r))
  /\ (bus < 0 ->
     bus_violation bus ∈ violations r
     /\ ((length data > 8)%nat ->
          length_violation (Z.of_nat (length data)) "CAN 2.0" "8" ∈ violations r)
     /\ ((length data <= 8)%nat ->
          count_rule "invalid_data_length" (violations r) = 0%nat)).
Proof.
  intros r.
  assert (Hc : forall q, q = "invalid_data_length" \/ q = "invalid_bus" ->
               count_rule q (classify_address self address).1 = 0%nat).
  { intros q Hq. apply count_rule_absent. unfold classify_address. intros v.
    repeat case_match; simpl; intros Hv;
      first [ by apply elem_of_nil in Hv
            | apply list_elem_of_singleton in Hv as ->; destruct Hq as [-> | ->]; done ]. }
  assert (Hbad : bus < 0 \/ 3 <= bus -> check_bus bus = [bus_violation bus]).
  { intros Hb. unfold check_bus. rewrite bool_decide_eq_false_2; [done|].
    rewrite !elem_of_cons, elem_of_nil. lia. }
  split.
  - intros Hbus.
    assert (Hge : (bus <? 3) = false) by lia.
    split.
    + intros Hlen.
      assert (Hs : structural_violations data bus = [bus_violation bus]).
      { unfold structural_violations, check_data_length. rewrite Hge.
        replace (Z.of_nat (length data) >? 64) with false by lia.
        rewrite Hbad by lia. done. }
      assert (Hv : violations r = (classify_address self address).1 ++ [bus_violation bus]).
      { unfold r. by rewrite validate_violations, Hs. }
      split_and!; [| | done | done |].
      * rewrite Hv, count_rule_app, Hc by auto. done.
      * rewrite Hv, count_rule_app, Hc by auto. done.
      * intros Hnil. by rewrite Hv, Hnil.
    + intros Hlen. unfold r. rewrite validate_violations.
      apply elem_of_app. right. apply elem_of_app. left.
      unfold check_data_length. rewrite Hge.
      replace (Z.of_nat (length data) >? 64) with true by lia. by left.
  - intros Hbus.
    assert (Hlt : (bus <? 3) = true) by lia.
    split_and!.
    + unfold r. rewrite validate_violations.
      apply elem_of_app. right. apply elem_of_app. right.
      rewrite Hbad by lia. by left.
    + intros Hlen. unfold r. rewrite validate_violations.
      apply elem_of_app. right. apply elem_of_app. left.
      unfold check_data_length. rewrite Hlt.
      replace (Z.of_nat (length data) >? 8) with true by lia. by left.
    + intros Hlen. unfold r. rewrite validate_violations, count_rule_app, Hc by auto.
      unfold structural_violations, check_data_length. rewrite Hlt.
      replace (Z.of_nat (length data) >? 8) with false by lia.
      rewrite Hbad by lia. done.
Qed.

End RuleEngine.

(** *** Instances *)


Lemma critical_address_violation_or_warning_witness :
  ((0x326 ∉ blocked_addresses (new_SafetyRules PRODUCTION None))
   /\ count_rule "critical_message"
        (violations (validate_message (new_SafetyRules PRODUCTION None) 0x326 [] 0)) = 1%nat)
  /\ ((0x326 ∉ blocked_addresses (new_SafetyRules TESTING None))
      /\ critical_warning (mkAddrInfo "Cruise Control" "high" "ACC/Cruise commands") 0x326
         ∈ warnings (validate_message (new_SafetyRules TESTING None) 0x326 [] 0)).
Proof.
  split; (split; [decide_by_computation|]).
  - apply (critical_address_violation_or_warning
             (new_SafetyRules PRODUCTION None) 0x326 [] 0
             (mkAddrInfo "Cruise Control" "high" "ACC/Cruise commands"));
      [decide_by_computation | reflexivity | reflexivity].
  - apply (critical_address_violation_or_warning
             (new_SafetyRules TESTING None) 0x326 [] 0
             (mkAddrInfo "Cruise Control" "high" "ACC/Cruise commands"));
      [decide_by_computation | reflexivity | left; reflexivity].
Defined.

(** A configuration may block an address whose table severity is
    ["high"]; the [blocked_address] violation is ["critical"] all the
    same, so its severity is not the one of the policy table. *)
Lemma blocked_severity_differs_from_policy :
  let self := new_SafetyRules TESTING (Some [0x326]) in
  let r := validate_message self 0x326 [] 0 in
  mode self <> LOCKED
  /\ (0x326 ∈ blocked_addresses self)
  /\ policy_severity_or_critical 0x326 = "high"
  /\ ~ (exists v, v ∈ violations r /\ rule v = "blocked_address"
                 /\ severity v = policy_severity_or_critical 0x326).
Proof.
  split_and!; [done | decide_by_computation | reflexivity |].
  intros (v & Hv & _ & Hs).
  vm_compute in Hv. apply list_elem_of_singleton in Hv as ->.
  vm_compute in Hs. discriminate Hs.
Qed.

(** The default blocked sets of the modes other than LOCKED hold only
    addresses that the policy table rates ["critical"]: there the
    severity of the violation and the one of the table coincide. *)
Lemma default_blocked_are_critical (m : SafetyMode) (address : Z) :
  m <> LOCKED ->
  address ∈ DEFAULT_BLOCKED m ->
  policy_severity_or_critical address = "critical".
Proof.
  intros Hm Hin. destruct m; simpl in Hin; [by apply elem_of_empty in Hin | | | done].
  all: repeat (apply elem_of_union in Hin as [Hin | Hin]);
    apply elem_of_singleton in Hin as ->; reflexivity.
Qed.

Lemma blocked_address_is_always_critical_witness :
  let self := new_SafetyRules TESTING (Some [0x326]) in
  mode self <> LOCKED
  /\ (0x326 ∈ blocked_addresses self)
  /\ exists v, violations (validate_message self 0x326 [] 0)
               = v :: structural_violations [] 0
       /\ count_rule "blocked_address" (violations (validate_message self 0x326 [] 0)) = 1%nat
       /\ rule v = "blocked_address"
       /\ severity v = "critical"
       /\ can_override v = bool_decide (mode self = DEVELOPMENT)
       /\ requires_confirmation v = false.
Proof.
  split; [discriminate|]. split; [decide_by_computation|].
  apply (blocked_address_is_always_critical
           (new_SafetyRules TESTING (Some [0x326])) 0x326 [] 0);
    [discriminate | decide_by_computation].
Defined.

Lemma classic_can_payload_limit_witness :
  0 < 3
  /\ ((length (repeat Byte.x00 9) > 8)%nat ->
      exists v, v ∈ violations (validate_message (new_SafetyRules DEVELOPMENT None)
                                  0x123 (repeat Byte.x00 9) 0)
        /\ rule v = "invalid_data_length"
        /\ can_override v = false /\ severity v = "high"
        /\ result_can_override (validate_message (new_SafetyRules DEVELOPMENT None)
                                  0x123 (repeat Byte.x00 9) 0) = false
        /\ passed (validate_message (new_SafetyRules DEVELOPMENT None)
                     0x123 (repeat Byte.x00 9) 0) = false)
  /\ ((length (repeat Byte.x00 8) <= 8)%nat ->
      count_rule "invalid_data_length"
        (violations (validate_message (new_SafetyRules DEVELOPMENT None)
                       0x123 (repeat Byte.x00 8) 0)) = 0%nat).
Proof.
  split; [lia|]. split.
  - apply (classic_can_payload_limit (new_SafetyRules DEVELOPMENT None)
             0x123 (repeat Byte.x00 9) 0). lia.
  - apply (classic_can_payload_limit (new_SafetyRules DEVELOPMENT None)
             0x123 (repeat Byte.x00 8) 0). lia.
Defined.

Lemma validation_result_invariant_witness :
  passed (validate_message (new_SafetyRules PRODUCTION None) 0x123 [] 0) = true
  <-> violations (validate_message (new_SafetyRules PRODUCTION None) 0x123 [] 0) = [].
Proof.
  apply (validation_result_invariant (new_SafetyRules PRODUCTION None) 0x123 [] 0).
Defined.

Lemma length_limit_follows_bus_number_witness :
  (3 <= 5 /\ (9 <= length (repeat Byte.x00 12) <= 64)%nat
   /\ violations (validate_message (new_SafetyRules DEVELOPMENT None)
                    0x123 (repeat Byte.x00 12) 5) = [bus_violation 5])
  /\ (-1 < 0 /\ (length (repeat Byte.x00 12) > 8)%nat
      /\ length_violation 12 "CAN 2.0" "8"
         ∈ violations (validate_message (new_SafetyRules DEVELOPMENT None)
                         0x123 (repeat Byte.x00 12) (-1))).
Proof.
  split.
  - split; [lia|]. split; [simpl; lia|].
    apply (length_limit_follows_bus_number (new_SafetyRules DEVELOPMENT None)
             0x123 (repeat Byte.x00 12) 5); [lia | simpl; lia | reflexivity].
  - split; [lia|]. split; [simpl; lia|].
    apply (length_limit_follows_bus_number (new_SafetyRules DEVELOPMENT None)
             0x123 (repeat Byte.x00 12) (-1)); [lia | simpl; lia].
Defined.

(** * The rate limiter *)

Section RateLimiterFacts.

Implicit Types (self s : RateLimiter) (address a : Z) (t bound : Q).

Lemma Qltb_ge x y : (y <= x)%Q -> Qltb x y = false.
  Proof. intros H. unfold Qltb. apply Qle_bool_iff in H. by rewrite H. Qed.

Lemma drop_old_fresh cutoff (l : list Q) :
    Forall (Qle cutoff) l -> drop_old cutoff l = l.
  Proof. destruct 1 as [|x l Hx _]; simpl; [done|]. by rewrite Qltb_ge. Qed.

Lemma drop_old_Forall (P : Q -> Prop) cutoff (l : list Q) :
    Forall P l -> Forall P (drop_old cutoff l).
  Proof.
    induction 1 as [|x l Hx Hl IH]; simpl; [constructor|].
    destruct (Qltb x cutoff); [done | by constructor].
  Qed.

Lemma timestamps_of_clean self t a :
    timestamps_of (_clean_old_timestamps self t) a
    = drop_old (t - window_size (config self))%Q (timestamps_of self a).
  Proof.
    unfold timestamps_of, _clean_old_timestamps; simpl.
    rewrite lookup_omap. destruct (address_timestamps self !! a) as [l|]; simpl; [|done].
    by destruct (drop_old _ l).
  Qed.

  (** What one call does once the clean is over, branch by branch. *)
Lemma check_limits_and_record_spec self a t :
    let s' := (check_limits_and_record self a t).1 in
    let answer := (check_limits_and_record self a t).2 in
    let n := Z.of_nat (length (timestamps_of self a)) in
    let k := tokens_of self a in
    config s' = config self
    /\ critical_addresses s' = critical_addresses self
    /\ last_clean s' = last_clean self
    /\ (forall b, b <> a ->
          timestamps_of s' b = timestamps_of self b /\ tokens_of s' b = tokens_of self b)
    /\ match verdict self a with
       | DenyGlobal =>
           answer = (false, Some (global_limit_message self)) /\ s' = self
       | DenyAddress =>
           answer = (false, Some (address_limit_message a (limit_for self a)))
           /\ global_timestamps s' = global_timestamps self
           /\ timestamps_of s' a = timestamps_of self a
           /\ tokens_of s' a = k
       | AllowUnderLimit =>
           answer = (true, None)
           /\ global_timestamps s' = global_timestamps self ++ [t]
           /\ timestamps_of s' a = timestamps_of self a ++ [t]
           /\ tokens_of s' a
              = if 2 * n <? limit_for self a
                then Z.min (k + 1) (burst_size (config self)) else k
       | AllowBurst =>
           answer = (true, None)
           /\ global_timestamps s' = global_timestamps self ++ [t]
           /\ timestamps_of s' a = timestamps_of self a ++ [t]
           /\ tokens_of s' a
              = if 2 * n <? limit_for self a
                then Z.min (k - 1 + 1) (burst_size (config self)) else k - 1
       end.
  Proof.
    unfold check_limits_and_record, verdict.
    destruct (_ >=? global_limit _); [by split_and!|].
    repeat (progress (unfold limit_for, timestamps_of, tokens_of, touch_tokens,
      touch_timestamps, set_burst_tokens, set_address_timestamps,
      set_global_timestamps; simpl)).
    rewrite ?lookup_insert_eq; simpl.
    destruct (_ >=? _); simpl.
    - rewrite ?lookup_insert_eq; simpl. destruct (_ >? 0); simpl.
      + rewrite ?lookup_insert_eq; simpl.
        destruct (2 * _ <? _); simpl; rewrite ?lookup_insert_eq; simpl.
        all: split_and!; try done.
        all: intros b Hb; rewrite ?lookup_insert_ne by done; done.
      + rewrite ?lookup_insert_eq; simpl.
        split_and!; try done.
        intros b Hb; rewrite ?lookup_insert_ne by done; done.
    - destruct (2 * _ <? _); simpl; rewrite ?lookup_insert_eq; simpl.
      all: split_and!; try done.
      all: intros b Hb; rewrite ?lookup_insert_ne by done; done.
  Qed.

Lemma clean_if_due_config self t :
  config (clean_if_due self t) = config self
  /\ critical_addresses (clean_if_due self t) = critical_addresses self
  /\ forall a, tokens_of (clean_if_due self t) a = tokens_of self a.
Proof. unfold clean_if_due. by destruct (Qltb _ _). Qed.

(** The periodic clean removes nothing while every recorded timestamp is
    inside the window. *)
Lemma clean_if_due_in_window bound self t :
  stamps_ge bound self -> in_window bound (window_size (config self)) t ->
  global_timestamps (clean_if_due self t) = global_timestamps self
  /\ forall a, timestamps_of (clean_if_due self t) a = timestamps_of self a.
Proof.
  intros [Hg Ha] [_ Hw]. unfold clean_if_due.
  destruct (Qltb _ _); [|done].
  assert (Hfresh : forall l, Forall (Qle bound) l ->
            drop_old (t - window_size (config self))%Q l = l).
  { intros l Hl. apply drop_old_fresh.
    eapply Forall_impl; [exact Hl|]. intros x Hx. simpl in Hx.
    by apply Qle_trans with bound. }
  split.
  - simpl. by apply Hfresh.
  - intros a.
    change (timestamps_of (_clean_old_timestamps self t) a = timestamps_of self a).
    rewrite timestamps_of_clean. by apply Hfresh.
Qed.

Lemma clean_if_due_stamps_ge bound self t :
  stamps_ge bound self -> stamps_ge bound (clean_if_due self t).
Proof.
  intros [Hg Ha]. unfold clean_if_due.
  destruct (Qltb _ _); [|done].
  split.
  - simpl. by apply drop_old_Forall.
  - intros a.
    change (Forall (Qle bound) (timestamps_of (_clean_old_timestamps self t) a)).
    rewrite timestamps_of_clean. by apply drop_old_Forall.
Qed.

Lemma check_limits_and_record_stamps_ge bound self a t :
  stamps_ge bound self -> (bound <= t)%Q ->
  stamps_ge bound (check_limits_and_record self a t).1.
Proof.
  intros [Hg Ha] Ht.
  destruct (check_limits_and_record_spec self a t) as (_ & _ & _ & Hother & Hcase).
  assert (Hsnoc : forall l, Forall (Qle bound) l -> Forall (Qle bound) (l ++ [t])).
  { intros l Hl. apply Forall_app. split; [done|]. by constructor. }
  assert (Hb : forall b,
            b <> a -> Forall (Qle bound) (timestamps_of (check_limits_and_record self a t).1 b)).
  { intros b Hne. destruct (Hother b Hne) as [-> _]. apply Ha. }
  destruct (verdict self a).
  - destruct Hcase as [_ ->]. by split.
  - destruct Hcase as (_ & Eg & Ea & _). split; [by rewrite Eg|].
    intros b. destruct (decide (b = a)) as [-> | Hne]; [by rewrite Ea | by apply Hb].
  - destruct Hcase as (_ & Eg & Ea & _). split; [rewrite Eg; by apply Hsnoc|].
    intros b. destruct (decide (b = a)) as [-> | Hne];
      [rewrite Ea; by apply Hsnoc | by apply Hb].
  - destruct Hcase as (_ & Eg & Ea & _). split; [rewrite Eg; by apply Hsnoc|].
    intros b. destruct (decide (b = a)) as [-> | Hne];
      [rewrite Ea; by apply Hsnoc | by apply Hb].
Qed.

Lemma same_counts_limit_for s1 s2 a :
  same_counts s1 s2 -> limit_for s1 a = limit_for s2 a.
Proof. intros (Hc & Hk & _). unfold limit_for. by rewrite Hc, Hk. Qed.

Lemma same_counts_verdict s1 s2 a :
  same_counts s1 s2 -> verdict s1 a = verdict s2 a.
Proof.
  intros H. pose proof (same_counts_limit_for _ _ a H) as Hl.
  destruct H as (Hc & Hk & Hg & Ha & Ht).
  unfold verdict. by rewrite Hc, Hg, Ha, Ht, Hl.
Qed.

(** Once the clean is over, a call looks only at the counts: limiters
    that agree on them give the same answer and agree afterwards. *)
Lemma check_limits_and_record_same_counts s1 s2 a t1 t2 :
  same_counts s1 s2 ->
  (check_limits_and_record s1 a t1).2 = (check_limits_and_record s2 a t2).2
  /\ same_counts (check_limits_and_record s1 a t1).1 (check_limits_and_record s2 a t2).1.
Proof.
  intros H.
  pose proof (same_counts_limit_for _ _ a H) as Hl.
  pose proof (same_counts_verdict _ _ a H) as Hv.
  destruct H as (Hc & Hk & Hg & Ha & Ht).
  destruct (check_limits_and_record_spec s1 a t1) as (Ec1 & Ek1 & _ & Ho1 & Hcase1).
  destruct (check_limits_and_record_spec s2 a t2) as (Ec2 & Ek2 & _ & Ho2 & Hcase2).
  rewrite Hv in Hcase1.
  assert (Hfin :
    (length (global_timestamps (check_limits_and_record s1 a t1).1)
       = length (global_timestamps (check_limits_and_record s2 a t2).1)
     -> length (timestamps_of (check_limits_and_record s1 a t1).1 a)
        = length (timestamps_of (check_limits_and_record s2 a t2).1 a)
     -> tokens_of (check_limits_and_record s1 a t1).1 a
        = tokens_of (check_limits_and_record s2 a t2).1 a
     -> same_counts (check_limits_and_record s1 a t1).1 (check_limits_and_record s2 a t2).1)).
  { intros Eg Ea Et. split_and!.
    - congruence.
    - congruence.
    - done.
    - intros b. destruct (decide (b = a)) as [-> | Hne]; [done|].
      destruct (Ho1 b Hne) as [-> _], (Ho2 b Hne) as [-> _]. apply Ha.
    - intros b. destruct (decide (b = a)) as [-> | Hne]; [done|].
      destruct (Ho1 b Hne) as [_ ->], (Ho2 b Hne) as [_ ->]. apply Ht. }
  destruct (verdict s2 a).
  - destruct Hcase1 as [-> E1], Hcase2 as [-> E2]. split.
    + unfold global_limit_message. by rewrite Hc.
    + apply Hfin; rewrite E1, E2; done.
  - destruct Hcase1 as (-> & Eg1 & Ea1 & Et1), Hcase2 as (-> & Eg2 & Ea2 & Et2). split.
    + by rewrite Hl.
    + apply Hfin; [by rewrite Eg1, Eg2 | by rewrite Ea1, Ea2 | by rewrite Et1, Et2].
  - destruct Hcase1 as (-> & Eg1 & Ea1 & Et1), Hcase2 as (-> & Eg2 & Ea2 & Et2). split; [done|].
    apply Hfin.
    + rewrite Eg1, Eg2, !length_app. by rewrite Hg.
    + rewrite Ea1, Ea2, !length_app. by rewrite Ha.
    + rewrite Et1, Et2. by rewrite Ha, Hl, Ht, Hc.
  - destruct Hcase1 as (-> & Eg1 & Ea1 & Et1), Hcase2 as (-> & Eg2 & Ea2 & Et2). split; [done|].
    apply Hfin.
    + rewrite Eg1, Eg2, !length_app. by rewrite Hg.
    + rewrite Ea1, Ea2, !length_app. by rewrite Ha.
    + rewrite Et1, Et2. by rewrite Ha, Hl, Ht, Hc.
Qed.

(** Within one window the answer of [check_and_update] does not depend on
    the clock readings. *)
Lemma check_and_update_same_counts b1 b2 s1 s2 a t1 t2 :
  same_counts s1 s2 ->
  stamps_ge b1 s1 -> stamps_ge b2 s2 ->
  in_window b1 (window_size (config s1)) t1 ->
  in_window b2 (window_size (config s2)) t2 ->
  (check_and_update s1 a t1).2 = (check_and_update s2 a t2).2
  /\ same_counts (check_and_update s1 a t1).1 (check_and_update s2 a t2).1
  /\ stamps_ge b1 (check_and_update s1 a t1).1
  /\ stamps_ge b2 (check_and_update s2 a t2).1.
Proof.
  intros H Hs1 Hs2 Hw1 Hw2. unfold check_and_update.
  assert (Hclean : same_counts (clean_if_due s1 t1) (clean_if_due s2 t2)).
  { destruct H as (Hc & Hk & Hg & Ha & Ht).
    destruct (clean_if_due_config s1 t1) as (Ec1 & Ek1 & Et1).
    destruct (clean_if_due_config s2 t2) as (Ec2 & Ek2 & Et2).
    destruct (clean_if_due_in_window _ _ _ Hs1 Hw1) as [Eg1 Ea1].
    destruct (clean_if_due_in_window _ _ _ Hs2 Hw2) as [Eg2 Ea2].
    split_and!; [congruence | congruence | congruence | |].
    - intros b. by rewrite Ea1, Ea2.
    - intros b. by rewrite Et1, Et2. }
  destruct (check_limits_and_record_same_counts _ _ a t1 t2 Hclean) as [Hans Hsame].
  split_and!; [done | done | |].
  - apply check_limits_and_record_stamps_ge; [by apply clean_if_due_stamps_ge | apply Hw1].
  - apply check_limits_and_record_stamps_ge; [by apply clean_if_due_stamps_ge | apply Hw2].
Qed.

Lemma check_and_update_config self a t :
  config (check_and_update self a t).1 = config self.
Proof.
  unfold check_and_update.
  destruct (check_limits_and_record_spec (clean_if_due self t) a t) as (-> & _).
  apply clean_if_due_config.
Qed.

Lemma run_calls_same_counts b1 b2 (calls1 calls2 : list (Z * Q)) :
  forall s1 s2,
  same_counts s1 s2 ->
  stamps_ge b1 s1 -> stamps_ge b2 s2 ->
  calls1.*1 = calls2.*1 ->
  Forall (fun c => in_window b1 (window_size (config s1)) c.2) calls1 ->
  Forall (fun c => in_window b2 (window_size (config s2)) c.2) calls2 ->
  (run_calls s1 calls1).2 = (run_calls s2 calls2).2.
Proof.
  revert calls2.
  induction calls1 as [|[a1 t1] calls1 IH]; intros [|[a2 t2] calls2] s1 s2;
    simpl; try done.
  intros Hsame Hs1 Hs2 Haddr Hw1 Hw2.
  injection Haddr as -> Haddr.
  apply Forall_cons in Hw1 as [Hw1 Hrest1].
  apply Forall_cons in Hw2 as [Hw2 Hrest2].
  destruct (check_and_update_same_counts b1 b2 s1 s2 a2 t1 t2)
    as (Hans & Hsame' & Hs1' & Hs2'); try done.
  pose proof (check_and_update_config s1 a2 t1) as Hc1.
  pose proof (check_and_update_config s2 a2 t2) as Hc2.
  destruct (check_and_update s1 a2 t1) as [s1' ans1].
  destruct (check_and_update s2 a2 t2) as [s2' ans2].
  simpl in *. subst ans2.
  specialize (IH calls2 s1' s2' Hsame' Hs1' Hs2' Haddr).
  rewrite Hc1, Hc2 in IH. specialize (IH Hrest1 Hrest2).
  destruct (run_calls s1' calls1), (run_calls s2' calls2).
  simpl in *. by rewrite IH.
Qed.

Lemma new_RateLimiter_stamps_ge bound cfg now :
  stamps_ge bound (new_RateLimiter cfg now).
Proof. split; [constructor|]. intros a. constructor. Qed.

(** C7 (as the code has it). On a fresh limiter with a limit of 3 per
    address, take three calls for 0x100 with a call for 0x200 between
    them, then a fourth call for 0x100, all inside one window.  The first
    four are allowed.  The fourth call for 0x100 is denied for the
    per-address limit when the burst size is 0; with the default burst
    size of 10 it is allowed, on a burst token. *)
Theorem per_address_limit_scenario (t0 bound t1 t2 t3 t4 t5 : Q) :
  Forall (in_window bound 1) [t1; t2; t3; t4; t5] ->
  let calls := [(0x100, t1); (0x100, t2); (0x200, t3); (0x100, t4); (0x100, t5)] in
  (run_calls (new_RateLimiter (Some (limit3_config 0)) t0) calls).2
  = [(true, None); (true, None); (true, None); (true, None); address_limit_denial]
  /\ (run_calls (new_RateLimiter (Some (limit3_config 10)) t0) calls).2
    = [(true, None); (true, None); (true, None); (true, None); (true, None)].
Proof.
  intros Hw calls.
  set (zero := [(0x100, 0%Q); (0x100, 0%Q); (0x200, 0%Q); (0x100, 0%Q); (0x100, 0%Q)]).
  assert (Hcalls : Forall (fun c : Z * Q => in_window bound 1 c.2) calls).
  { unfold calls. repeat (apply Forall_cons in Hw as [? Hw]).
    repeat (constructor; [done|]). constructor. }
  assert (Hzero : Forall (fun c : Z * Q => in_window 0 1 c.2) zero).
  { unfold zero. repeat (constructor; [by split|]). constructor. }
  split.
  - rewrite (run_calls_same_counts bound 0%Q calls zero _
               (new_RateLimiter (Some (limit3_config 0)) 0%Q));
      [by vm_compute | done | apply new_RateLimiter_stamps_ge..| done | done | done].
  - rewrite (run_calls_same_counts bound 0%Q calls zero _
               (new_RateLimiter (Some (limit3_config 10)) 0%Q));
      [by vm_compute | done | apply new_RateLimiter_stamps_ge..| done | done | done].
Qed.

(** C8 (as the code has it). When a call is allowed because the window of
    the address, after the periodic clean, is under the limit of the
    address, the clock reading is appended to the global window and to
    the window of the address, and the tokens of the address are raised
    by one, up to the burst size, exactly when the size of its window
    before the append (the size after it, less one) is under half the
    limit. *)
Theorem under_limit_call_records_and_regenerates self a t :
  let s1 := clean_if_due self t in
  let s' := (check_and_update self a t).1 in
  Z.of_nat (length (global_timestamps s1)) < global_limit (config s1) ->
  Z.of_nat (length (timestamps_of s1 a)) < limit_for s1 a ->
  (check_and_update self a t).2 = (true, None)
  /\ global_timestamps s' = global_timestamps s1 ++ [t]
  /\ timestamps_of s' a = timestamps_of s1 a ++ [t]
  /\ tokens_of s' a
     = if 2 * (Z.of_nat (length (timestamps_of s' a)) - 1) <? limit_for s1 a
       then Z.min (tokens_of s1 a + 1) (burst_size (config s1))
       else tokens_of s1 a.
Proof.
  intros s1 s' Hg Ha. unfold s', check_and_update. fold s1.
  destruct (check_limits_and_record_spec s1 a t) as (_ & _ & _ & _ & Hcase).
  unfold verdict in Hcase.
  replace (_ >=? global_limit _) with false in Hcase by lia.
  replace (_ >=? limit_for _ _) with false in Hcase by lia.
  destruct Hcase as (Hans & Eg & Ea & Et).
  split_and!; [done..|].
  rewrite Et, Ea, length_app. simpl.
  by replace (Z.of_nat (length (timestamps_of s1 a) + 1) - 1)
    with (Z.of_nat (length (timestamps_of s1 a))) by lia.
Qed.

End RateLimiterFacts.

(** *** Instances *)

(** With the default burst size the fourth call for 0x100 is not denied:
    the address starts with ten burst tokens and the call uses one. *)
Lemma fourth_call_uses_a_burst_token :
  let self := new_RateLimiter (Some (limit3_config 10)) 0%Q in
  let calls := [(0x100, 0%Q); (0x100, 0%Q); (0x200, 0%Q); (0x100, 0%Q); (0x100, 0%Q)] in
  burst_size (config self) = burst_size default_RateLimitConfig
  /\ (run_calls self calls).2 !! 4%nat = Some (true, None)
  /\ ~ (exists reason, (run_calls self calls).2 !! 4%nat = Some (false, Some reason))
  /\ tokens_of (run_calls self calls).1 0x100 = 9.
Proof.
  split_and!; [reflexivity | by vm_compute | | by vm_compute].
  intros [reason H]. vm_compute in H. discriminate H.
Qed.

Lemma per_address_limit_scenario_witness :
  Forall (in_window 5 1) [5%Q; (11 # 2)%Q; (11 # 2)%Q; (23 # 4)%Q; 6%Q]
  /\ (run_calls (new_RateLimiter (Some (limit3_config 0)) 0%Q)
        [(0x100, 5%Q); (0x100, (11 # 2)%Q); (0x200, (11 # 2)%Q);
         (0x100, (23 # 4)%Q); (0x100, 6%Q)]).2
     = [(true, None); (true, None); (true, None); (true, None); address_limit_denial].
Proof.
  assert (H : Forall (in_window 5 1) [5%Q; (11 # 2)%Q; (11 # 2)%Q; (23 # 4)%Q; 6%Q]).
  { repeat (constructor; [split; vm_compute; discriminate|]). constructor. }
  split; [exact H|].
  apply (per_address_limit_scenario 0%Q 5%Q 5%Q (11 # 2)%Q (11 # 2)%Q (23 # 4)%Q 6%Q H).
Defined.

(** A call whose window holds one entry after the append, with a limit of
    2: the size after the append is not under half the limit, and the
    tokens are raised from 9 to 10 all the same, since the size before the
    append was 0. *)
Lemma regeneration_looks_at_size_before_append :
  let cfg := {| global_limit := 1000; per_address_limit := 2; burst_size := 10;
                window_size := 1%Q; critical_address_limit := 10 |} in
  let self :=
    (run_calls (new_RateLimiter (Some cfg) 0%Q)
       [(0x100, 0%Q); (0x100, 0%Q); (0x100, 0%Q)]).1 in
  let s1 := clean_if_due self 2%Q in
  let s' := (check_and_update self 0x100 2%Q).1 in
  Z.of_nat (length (global_timestamps s1)) < global_limit (config s1)
  /\ Z.of_nat (length (timestamps_of s1 0x100)) < limit_for s1 0x100
  /\ (check_and_update self 0x100 2%Q).2 = (true, None)
  /\ (2 * Z.of_nat (length (timestamps_of s' 0x100)) <? limit_for s1 0x100) = false
  /\ tokens_of s1 0x100 = 9
  /\ tokens_of s' 0x100 = 10.
Proof. by vm_compute. Qed.

Lemma under_limit_call_records_and_regenerates_witness :
  let self := new_RateLimiter None 0%Q in
  Z.of_nat (length (global_timestamps (clean_if_due self 0%Q)))
    < global_limit (config (clean_if_due self 0%Q))
  /\ Z.of_nat (length (timestamps_of (clean_if_due self 0%Q) 0x100))
     < limit_for (clean_if_due self 0%Q) 0x100
  /\ (check_and_update self 0x100 0%Q).2 = (true, None).
Proof.
  split; [by vm_compute|]. split; [by vm_compute|].
  apply (under_limit_call_records_and_regenerates (new_RateLimiter None 0%Q) 0x100 0%Q);
    by vm_compute.
Defined.

(** * The send path *)

Section SendPath.

Context {Transport : Type}.
Variable _send_raw :
  Transport -> Z -> list Byte.byte -> Z -> Transport * option PyException.

Implicit Types (self : BaseCANInterface Transport) (address bus : Z).
Implicit Types (data : list Byte.byte) (force : bool) (now : Q).

Lemma handed_frames_app (cs ds : list Call) :
  handed_frames (cs ++ ds) = handed_frames cs ++ handed_frames ds.
Proof. unfold handed_frames. apply omap_app. Qed.

Lemma new_CANMessage_well_formed address data bus now :
  well_formed_frame address bus ->
  new_CANMessage address data bus now = inr (mkCANMessage address data bus now).
Proof.
  intros [Ha Hb]. unfold new_CANMessage.
  replace ((0 <=? address) && (address <=? 0x1FFFFFFF)) with true by lia.
  by replace ((0 <=? bus) && (bus <=? 2)) with true by lia.
Qed.

Lemma safety_stage_spec self address data bus force :
  let r := safety_stage self address data bus force in
  let result := effective_result self address data bus force in
  calls r.1 = calls self
              ++ (if rules_consulted self force then [CallValidate address data bus] else [])
  /\ rate_limiter r.1 = rate_limiter self
  /\ transport r.1 = transport self
  /\ if rejected_by_rules self address data bus force
     then exists v rest, violations result = v :: rest
            /\ r.2 = inl (PermissionError ("Cannot send message: " +:+ message v))
     else r.2 = inr result.
Proof.
  unfold safety_stage, rejected_by_rules, effective_result, rules_consulted.
  destruct (safety self) as [rules|]; simpl; [|by rewrite app_nil_r].
  destruct force; simpl; [by rewrite app_nil_r|].
  pose proof (validate_passed rules address data bus) as Hp.
  destruct (passed (validate_message rules address data bus)); simpl; [done|].
  destruct (result_can_override _); simpl; [done|].
  destruct (violations (validate_message rules address data bus)) as [|v rest]; [done|].
  split_and!; [done..|]. by exists v, rest.
Qed.

Lemma rate_limit_stage_spec self address now :
  let r := rate_limit_stage self address now in
  transport r.1 = transport self
  /\ match rate_limiter self with
     | None => r = (self, inr tt)
     | Some limiter =>
         let answer := (check_and_update limiter address now).2 in
         calls r.1 = calls self ++ [CallRateLimiter address answer.1]
         /\ rate_limiter r.1 = Some (check_and_update limiter address now).1
         /\ r.2 = if answer.1 then inr tt
                  else inl (RuntimeError ("Rate limit exceeded: "
                                          +:+ default "None" answer.2))
     end.
Proof.
  unfold rate_limit_stage.
  destruct (rate_limiter self) as [limiter|]; [|done].
  destruct (check_and_update limiter address now) as [limiter' [[] reason]]; done.
Qed.

Lemma transmit_stage_spec self address data bus :
  let r := transmit_stage _send_raw self address data bus in
  let raw := _send_raw (transport self) address data bus in
  calls r.1 = calls self ++ [CallSendRaw address data bus]
  /\ transport r.1 = raw.1
  /\ rate_limiter r.1 = rate_limiter self
  /\ r.2 = match raw.2 with
           | None => inr tt
           | Some e => inl e
           end.
Proof.
  unfold transmit_stage.
  destruct (_send_raw (transport self) address data bus) as [tr [e|]]; done.
Qed.

(** The three ways a [send] of a frame that [CANMessage] accepts can go. *)
Lemma send_cases self address data bus force now :
  (exists msg, new_CANMessage address data bus now = inr msg) ->
  let r := send _send_raw self address data bus force now in
  let result := effective_result self address data bus force in
  let validated :=
    if rules_consulted self force then [CallValidate address data bus] else [] in
  let raw := _send_raw (transport self) address data bus in
  if rejected_by_rules self address data bus force then
    calls r.1 = calls self ++ validated
    /\ transport r.1 = transport self
    /\ rate_limiter r.1 = rate_limiter self
    /\ exists v rest, violations result = v :: rest
         /\ r.2 = inl (PermissionError ("Cannot send message: " +:+ message v))
  else if denied_by_limiter self address now then
    calls r.1 = calls self ++ validated ++ [CallRateLimiter address false]
    /\ transport r.1 = transport self
    /\ exists limiter, rate_limiter self = Some limiter
         /\ r.2 = inl (RuntimeError
                         ("Rate limit exceeded: "
                          +:+ default "None" (check_and_update limiter address now).2.2))
  else
    calls r.1 = calls self ++ validated
                ++ match rate_limiter self with
                   | Some _ => [CallRateLimiter address true]
                   | None => []
                   end
                ++ [CallSendRaw address data bus]
    /\ transport r.1 = raw.1
    /\ r.2 = match raw.2 with
             | None => inr result
             | Some e => inl e
             end.
Proof.
  intros [msg Hmsg]. unfold send. rewrite Hmsg. clear msg Hmsg.
  destruct (safety_stage_spec self address data bus force) as (Hc1 & Hl1 & Ht1 & Ho1).
  destruct (safety_stage self address data bus force) as [s1 o1]; simpl in *.
  destruct (rejected_by_rules self address data bus force).
  { destruct Ho1 as (v & rest & Hv & ->). simpl. split_and!; [done..|]. by exists v, rest. }
  subst o1; simpl.
  destruct (rate_limit_stage_spec s1 address now) as (Ht2 & Ho2).
  unfold denied_by_limiter. rewrite <- Hl1.
  destruct (rate_limiter s1) as [limiter|].
  - destruct Ho2 as (Hc2 & Hl2 & Ho2).
    destruct (rate_limit_stage s1 address now) as [s2 o2]; simpl in *.
    destruct (check_and_update limiter address now).2.1; subst o2; simpl.
    + destruct (transmit_stage_spec s2 address data bus) as (Hc3 & Ht3 & _ & Ho3).
      destruct (transmit_stage _send_raw s2 address data bus) as [s3 o3]; simpl in *.
      rewrite Ht2, Ht1 in *.
      destruct (_send_raw _ _ _ _).2; subst o3; simpl;
        (split_and!; [by rewrite Hc3, Hc2, Hc1, <- !app_assoc | done..]).
    + split_and!; [by rewrite Hc2, Hc1, <- !app_assoc | congruence |].
      by exists limiter.
  - rewrite Ho2; simpl.
    destruct (transmit_stage_spec s1 address data bus) as (Hc3 & Ht3 & _ & Ho3).
    destruct (transmit_stage _send_raw s1 address data bus) as [s3 o3]; simpl in *.
    rewrite Ht1 in *.
    destruct (_send_raw _ _ _ _).2; subst o3; simpl;
      (split_and!; [by rewrite Hc3, Hc1, <- !app_assoc | done..]).
Qed.




End SendPath.

(** *** Instances *)




(** * The rate limiter: what every run keeps *)

Section RateLimiterInvariants.

Implicit Types (self s : RateLimiter) (address a : Z) (t now : Q).

Lemma drop_old_length cutoff (l : list Q) :
  (length (drop_old cutoff l) <= length l)%nat.
Proof.
  induction l as [|x l IH]; simpl; [done|].
  destruct (Qltb x cutoff); simpl; lia.
Qed.

Lemma clean_if_due_shrinks self t :
  (length (global_timestamps (clean_if_due self t)) <= length (global_timestamps self))%nat
  /\ forall a, (length (timestamps_of (clean_if_due self t) a)
               <= length (timestamps_of self a))%nat.
Proof.
  unfold clean_if_due. destruct (Qltb _ _); [|done].
  split; [apply drop_old_length|].
  intros a.
  change (length (timestamps_of (_clean_old_timestamps self t) a)
          <= length (timestamps_of self a))%nat.
  rewrite timestamps_of_clean. apply drop_old_length.
Qed.

Lemma clean_if_due_limit_for self t a :
  limit_for (clean_if_due self t) a = limit_for self a.
Proof.
  destruct (clean_if_due_config self t) as (Hc & Hk & _).
  unfold limit_for. by rewrite Hc, Hk.
Qed.

(** What the branch taken says about the counts. *)
Lemma verdict_cases self a :
  let g := Z.of_nat (length (global_timestamps self)) in
  let n := Z.of_nat (length (timestamps_of self a)) in
  match verdict self a with
  | DenyGlobal => global_limit (config self) <= g
  | DenyAddress =>
      g < global_limit (config self) /\ limit_for self a <= n /\ tokens_of self a <= 0
  | AllowUnderLimit => g < global_limit (config self) /\ n < limit_for self a
  | AllowBurst =>
      g < global_limit (config self) /\ limit_for self a <= n /\ 0 < tokens_of self a
  end.
Proof.
  unfold verdict.
  destruct (_ >=? global_limit _) eqn:Hg; [lia|].
  destruct (_ >=? limit_for _ _) eqn:Hn; [|lia].
  destruct (_ >? 0) eqn:Hk; lia.
Qed.

Lemma run_calls_invariant (P : RateLimiter -> Prop) :
  (forall s a t, P s -> P (check_and_update s a t).1) ->
  forall calls s, P s -> P (run_calls s calls).1.
Proof.
  intros Hstep calls. induction calls as [|[a t] calls IH]; intros s Hs; simpl; [done|].
  specialize (Hstep s a t Hs).
  destruct (check_and_update s a t) as [s' answer]; simpl in *.
  specialize (IH s' Hstep).
  by destruct (run_calls s' calls).
Qed.

Lemma check_and_update_tokens_bounded self a t :
  tokens_bounded self -> tokens_bounded (check_and_update self a t).1.
Proof.
  intros Hb. unfold check_and_update.
  destruct (clean_if_due_config self t) as (Hc & _ & Hk).
  destruct (check_limits_and_record_spec (clean_if_due self t) a t)
    as (Ec & _ & _ & Hother & Hcase).
  pose proof (verdict_cases (clean_if_due self t) a) as Hv. simpl in Hv.
  intros b. rewrite Ec, Hc.
  destruct (decide (b = a)) as [-> | Hne].
  - specialize (Hb a). rewrite <- Hk in Hb.
    destruct (verdict (clean_if_due self t) a).
    + destruct Hcase as [_ ->]. lia.
    + destruct Hcase as (_ & _ & _ & ->). lia.
    + destruct Hcase as (_ & _ & _ & ->). rewrite Hc. destruct (_ <? _); lia.
    + destruct Hcase as (_ & _ & _ & ->). rewrite Hc. destruct (_ <? _); lia.
  - destruct (Hother b Hne) as [_ ->]. rewrite Hk. apply Hb.
Qed.

(** X1. From a fresh limiter whose burst size is not negative, whatever
    calls are made and whenever, the burst tokens of every address stay
    between 0 and the burst size. *)
Theorem burst_tokens_stay_in_range cfg now (calls : list (Z * Q)) a :
  0 <= burst_size (default default_RateLimitConfig cfg) ->
  let self := (run_calls (new_RateLimiter cfg now) calls).1 in
  0 <= tokens_of self a <= burst_size (config self).
Proof.
  intros Hbs self.
  apply (run_calls_invariant tokens_bounded).
  - intros s b t. apply check_and_update_tokens_bounded.
  - intros b. unfold tokens_of; simpl. rewrite lookup_empty; simpl. lia.
Qed.

Lemma check_and_update_global_bounded self a t :
  Z.of_nat (length (global_timestamps self)) <= Z.max 0 (global_limit (config self)) ->
  Z.of_nat (length (global_timestamps (check_and_update self a t).1))
  <= Z.max 0 (global_limit (config (check_and_update self a t).1)).
Proof.
  intros Hb. rewrite check_and_update_config. unfold check_and_update.
  destruct (clean_if_due_config self t) as (Hc & _ & _).
  destruct (clean_if_due_shrinks self t) as [Hg _].
  destruct (check_limits_and_record_spec (clean_if_due self t) a t)
    as (_ & _ & _ & _ & Hcase).
  pose proof (verdict_cases (clean_if_due self t) a) as Hv. simpl in Hv.
  rewrite Hc in Hv.
  destruct (verdict (clean_if_due self t) a).
  - destruct Hcase as [_ ->]. lia.
  - destruct Hcase as (_ & -> & _). lia.
  - destruct Hcase as (_ & -> & _). rewrite length_app; simpl. lia.
  - destruct Hcase as (_ & -> & _). rewrite length_app; simpl. lia.
Qed.

(** X2. From a fresh limiter, whatever calls are made and whenever, the
    global window never holds more timestamps than the global limit
    (none at all when the limit is negative). *)
Theorem global_window_never_exceeds_limit cfg now (calls : list (Z * Q)) :
  let self := (run_calls (new_RateLimiter cfg now) calls).1 in
  get_current_rate self None <= Z.max 0 (global_limit (config self)).
Proof.
  intros self. unfold get_current_rate.
  apply (run_calls_invariant
           (fun s => Z.of_nat (length (global_timestamps s))
                     <= Z.max 0 (global_limit (config s)))).
  - intros s b t. apply check_and_update_global_bounded.
  - simpl. lia.
Qed.

Lemma check_and_update_limit_for self a t b :
  limit_for (check_and_update self a t).1 b = limit_for self b.
Proof.
  unfold check_and_update.
  destruct (check_limits_and_record_spec (clean_if_due self t) a t) as (Ec & Ek & _).
  unfold limit_for at 1. rewrite Ec, Ek. apply clean_if_due_limit_for.
Qed.

Lemma check_and_update_windows_bounded self a t :
  tokens_bounded self /\ windows_bounded self ->
  tokens_bounded (check_and_update self a t).1
  /\ windows_bounded (check_and_update self a t).1.
Proof.
  intros [Ht Hw]. split; [by apply check_and_update_tokens_bounded|].
  intros b. rewrite check_and_update_limit_for, check_and_update_config.
  specialize (Hw b). specialize (Ht b).
  unfold check_and_update.
  destruct (clean_if_due_config self t) as (Hc & _ & Hk).
  destruct (clean_if_due_shrinks self t) as [_ Hs]. specialize (Hs b).
  pose proof (clean_if_due_limit_for self t b) as Hl.
  destruct (check_limits_and_record_spec (clean_if_due self t) a t)
    as (_ & _ & _ & Hother & Hcase).
  pose proof (verdict_cases (clean_if_due self t) a) as Hv. simpl in Hv.
  rewrite <- Hk in Hw, Ht.
  destruct (decide (b = a)) as [-> | Hne].
  - rewrite Hl in Hv, Hcase.
    destruct (verdict (clean_if_due self t) a).
    + destruct Hcase as [_ ->]. lia.
    + destruct Hcase as (_ & _ & -> & ->). lia.
    + destruct Hcase as (_ & _ & -> & ->). rewrite length_app; simpl.
      rewrite Hc. destruct (_ <? _); lia.
    + destruct Hcase as (_ & _ & -> & ->). rewrite length_app; simpl.
      rewrite Hc. destruct (_ <? _) eqn:Hhalf; lia.
  - destruct (Hother b Hne) as [-> ->]. lia.
Qed.

(** X3. From a fresh limiter whose burst size is not negative, whatever
    calls are made and whenever, the window of an address never holds
    more timestamps than the limit of the address (0 if negative) plus
    the burst size. *)
Theorem address_window_never_exceeds_limit_plus_burst cfg now (calls : list (Z * Q)) a :
  0 <= burst_size (default default_RateLimitConfig cfg) ->
  let self := (run_calls (new_RateLimiter cfg now) calls).1 in
  get_current_rate self (Some a)
  <= Z.max (limit_for self a) 0 + burst_size (config self).
Proof.
  intros Hbs self.
  assert (H : tokens_bounded self /\ windows_bounded self).
  { apply (run_calls_invariant (fun s => tokens_bounded s /\ windows_bounded s)).
    - intros s b t. apply check_and_update_windows_bounded.
    - split; intros b; unfold tokens_of, timestamps_of; simpl;
        rewrite !lookup_empty; simpl; lia. }
  destruct H as [Ht Hw]. specialize (Ht a). specialize (Hw a).
  unfold get_current_rate. fold (timestamps_of self a). lia.
Qed.

(** X4. A denied call records nothing: the windows and the tokens of
    every address are what the periodic clean left, so a denial costs no
    quota and no burst token.  The reason names the global limit exactly
    when the global window is full. *)
Theorem denied_call_records_nothing self a t :
  (check_and_update self a t).2.1 = false ->
  let s1 := clean_if_due self t in
  let s' := (check_and_update self a t).1 in
  global_timestamps s' = global_timestamps s1
  /\ (forall b, timestamps_of s' b = timestamps_of s1 b
               /\ tokens_of s' b = tokens_of s1 b)
  /\ (check_and_update self a t).2.2
     = Some (if Z.of_nat (length (global_timestamps s1)) >=? global_limit (config s1)
             then global_limit_message s1
             else address_limit_message a (limit_for s1 a)).
Proof.
  intros Hden s1 s'. unfold s', check_and_update in *. fold s1 in Hden |- *.
  destruct (check_limits_and_record_spec s1 a t) as (_ & _ & _ & Hother & Hcase).
  pose proof (verdict_cases s1 a) as Hv. simpl in Hv.
  assert (Hall : forall b,
            (timestamps_of (check_limits_and_record s1 a t).1 a = timestamps_of s1 a
             /\ tokens_of (check_limits_and_record s1 a t).1 a = tokens_of s1 a) ->
            timestamps_of (check_limits_and_record s1 a t).1 b = timestamps_of s1 b
            /\ tokens_of (check_limits_and_record s1 a t).1 b = tokens_of s1 b).
  { intros b Ha. destruct (decide (b = a)) as [-> | Hne]; [done | by apply Hother]. }
  destruct (verdict s1 a).
  - destruct Hcase as [Hans Hs]. rewrite Hans, Hs.
    split_and!; [done | done |]. simpl.
    by replace (_ >=? _) with true by lia.
  - destruct Hcase as (Hans & Eg & Ea & Et). rewrite Hans.
    split_and!; [done | intros b; by apply Hall |]. simpl.
    by replace (_ >=? _) with false by lia.
  - destruct Hcase as [Hans _]. rewrite Hans in Hden. discriminate Hden.
  - destruct Hcase as [Hans _]. rewrite Hans in Hden. discriminate Hden.
Qed.

(** X5. An allowed call, whether under the limit or on a burst token,
    appends its clock reading once to the global window and once to the
    window of its address, and leaves the window and the tokens of every
    other address as the periodic clean left them. *)
Theorem allowed_call_records_once self a t :
  (check_and_update self a t).2.1 = true ->
  let s1 := clean_if_due self t in
  let s' := (check_and_update self a t).1 in
  global_timestamps s' = global_timestamps s1 ++ [t]
  /\ timestamps_of s' a = timestamps_of s1 a ++ [t]
  /\ (forall b, b <> a ->
        timestamps_of s' b = timestamps_of s1 b /\ tokens_of s' b = tokens_of s1 b)
  /\ Z.of_nat (length (global_timestamps s1)) < global_limit (config s1).
Proof.
  intros Hok s1 s'. unfold s', check_and_update in *. fold s1 in Hok |- *.
  destruct (check_limits_and_record_spec s1 a t) as (_ & _ & _ & Hother & Hcase).
  pose proof (verdict_cases s1 a) as Hv. simpl in Hv.
  destruct (verdict s1 a).
  - destruct Hcase as [Hans _]. rewrite Hans in Hok. discriminate Hok.
  - destruct Hcase as [Hans _]. rewrite Hans in Hok. discriminate Hok.
  - destruct Hcase as (_ & Eg & Ea & _). split_and!; [done | done | done | lia].
  - destruct Hcase as (_ & Eg & Ea & _). split_and!; [done | done | done | lia].
Qed.

(** The effect of a call on the windows, in one equation per window. *)
Lemma check_and_update_windows self a t :
  let s1 := clean_if_due self t in
  let s' := (check_and_update self a t).1 in
  let allowed := (check_and_update self a t).2.1 in
  global_timestamps s' = global_timestamps s1 ++ (if allowed then [t] else [])
  /\ forall b, timestamps_of s' b
              = timestamps_of s1 b
                ++ (if allowed && bool_decide (b = a) then [t] else []).
Proof.
  intros s1. unfold check_and_update. fold s1. simpl.
  destruct (check_limits_and_record_spec s1 a t) as (_ & _ & _ & Hother & Hcase).
  assert (Hb : forall (allowed : bool) b, b <> a ->
            timestamps_of (check_limits_and_record s1 a t).1 b
            = timestamps_of s1 b ++ (if allowed && bool_decide (b = a) then [t] else [])).
  { intros allowed b Hne. destruct (Hother b Hne) as [-> _].
    rewrite bool_decide_eq_false_2 by done.
    rewrite andb_false_r. by rewrite app_nil_r. }
  destruct (verdict s1 a).
  - destruct Hcase as [-> ->]. simpl. rewrite app_nil_r. split; [done|].
    intros b. by rewrite app_nil_r.
  - destruct Hcase as (-> & -> & Ea & _). simpl. rewrite app_nil_r. split; [done|].
    intros b. rewrite app_nil_r.
    destruct (decide (b = a)) as [-> | Hne]; [done | by destruct (Hother b Hne)].
  - destruct Hcase as (-> & -> & Ea & _). simpl. split; [done|].
    intros b. destruct (decide (b = a)) as [-> | Hne]; [|by apply (Hb true)].
    by rewrite bool_decide_eq_true_2.
  - destruct Hcase as (-> & -> & Ea & _). simpl. split; [done|].
    intros b. destruct (decide (b = a)) as [-> | Hne]; [|by apply (Hb true)].
    by rewrite bool_decide_eq_true_2.
Qed.

Lemma check_and_update_stamps_ge bound self a t :
  stamps_ge bound self -> (bound <= t)%Q ->
  stamps_ge bound (check_and_update self a t).1.
Proof.
  intros Hs Ht. unfold check_and_update.
  apply check_limits_and_record_stamps_ge; [by apply clean_if_due_stamps_ge | done].
Qed.

Lemma admitted_for_cons a a0 t0 (calls : list (Z * Q)) answer answers :
  admitted_for a ((a0, t0) :: calls) (answer :: answers)
  = ((if answer.1 && bool_decide (a0 = a) then 1 else 0)
     + admitted_for a calls answers)%nat.
Proof.
  unfold admitted_for, count_allowed.
  change (zip ((a0, t0) :: calls) (answer :: answers))
    with (((a0, t0), answer) :: zip calls answers).
  destruct (decide (a0 = a)) as [-> | Hne].
  - rewrite filter_cons_True by done. rewrite bool_decide_eq_true_2 by done.
    rewrite fmap_cons. simpl snd.
    destruct answer as [[] reason].
    + by rewrite filter_cons_True.
    + by rewrite filter_cons_False.
  - rewrite filter_cons_False by done. rewrite bool_decide_eq_false_2 by done.
    by rewrite andb_false_r.
Qed.

Lemma count_allowed_cons answer (answers : list (bool * option string)) :
  count_allowed (answer :: answers)
  = ((if answer.1 then 1 else 0) + count_allowed answers)%nat.
Proof.
  unfold count_allowed. destruct answer as [[] reason].
  - by rewrite filter_cons_True.
  - by rewrite filter_cons_False.
Qed.

(** Within one window the sizes of the windows count the allowed calls. *)
Lemma run_calls_window_counts bound (calls : list (Z * Q)) :
  forall self,
  stamps_ge bound self ->
  Forall (fun c => in_window bound (window_size (config self)) c.2) calls ->
  let r := run_calls self calls in
  length (global_timestamps r.1)
  = (length (global_timestamps self) + count_allowed r.2)%nat
  /\ forall a, length (timestamps_of r.1 a)
              = (length (timestamps_of self a) + admitted_for a calls r.2)%nat.
Proof.
  induction calls as [|[a0 t0] calls IH]; intros self Hs Hw; simpl.
  { split; [unfold count_allowed; simpl; lia|].
    intros a. unfold admitted_for, count_allowed. simpl. lia. }
  apply Forall_cons in Hw as [Hw0 Hw].
  destruct (clean_if_due_in_window _ _ _ Hs Hw0) as [Eg Ea].
  destruct (check_and_update_windows self a0 t0) as [Hg Ha].
  pose proof (check_and_update_stamps_ge bound self a0 t0 Hs (proj1 Hw0)) as Hs'.
  pose proof (check_and_update_config self a0 t0) as Hc.
  destruct (check_and_update self a0 t0) as [s' answer]; simpl in *.
  specialize (IH s' Hs'). rewrite Hc in IH. specialize (IH Hw).
  destruct (run_calls s' calls) as [s'' answers]; simpl in *.
  destruct IH as [IHg IHa]. split.
  - rewrite IHg, Hg, Eg, length_app, count_allowed_cons.
    destruct answer.1; simpl; lia.
  - intros a. rewrite IHa, Ha, Ea, length_app, admitted_for_cons.
    rewrite (bool_decide_ext (a = a0) (a0 = a)) by done.
    destruct (answer.1 && bool_decide (a0 = a)); simpl; lia.
Qed.

(** X6. Within one window, a fresh limiter whose burst size is not
    negative admits at most [global_limit] calls in all, and for each
    address at most the limit of the address plus the burst size. *)
Theorem admitted_calls_within_a_window cfg now bound (calls : list (Z * Q)) a :
  0 <= burst_size (default default_RateLimitConfig cfg) ->
  Forall (fun c => in_window bound
                     (window_size (default default_RateLimitConfig cfg)) c.2) calls ->
  let self := new_RateLimiter cfg now in
  let answers := (run_calls self calls).2 in
  Z.of_nat (count_allowed answers) <= Z.max 0 (global_limit (config self))
  /\ Z.of_nat (admitted_for a calls answers)
     <= Z.max (limit_for self a) 0 + burst_size (config self).
Proof.
  intros Hbs Hw self answers.
  destruct (run_calls_window_counts bound calls self
              (new_RateLimiter_stamps_ge bound cfg now) Hw) as [Hg Ha].
  specialize (Ha a). fold answers in Hg, Ha. simpl in Hg, Ha.
  assert (Hinv : (Z.of_nat (length (global_timestamps (run_calls self calls).1))
                  <= Z.max 0 (global_limit (config (run_calls self calls).1)))
                 /\ tokens_bounded (run_calls self calls).1
                 /\ windows_bounded (run_calls self calls).1).
  { apply (run_calls_invariant
             (fun s => Z.of_nat (length (global_timestamps s))
                       <= Z.max 0 (global_limit (config s))
                       /\ tokens_bounded s /\ windows_bounded s)).
    - intros s b t (H1 & H2). split; [by apply check_and_update_global_bounded|].
      by apply check_and_update_windows_bounded.
    - split; [simpl; lia|].
      split; intros b; unfold tokens_of, timestamps_of; simpl;
        rewrite !lookup_empty; simpl; lia. }
  destruct Hinv as (Hgb & Ht & Hwb). specialize (Ht a). specialize (Hwb a).
  assert (Hcfg : config (run_calls self calls).1 = config self).
  { apply (run_calls_invariant (fun s => config s = config self)); [|done].
    intros s b t Hs. by rewrite check_and_update_config. }
  assert (Hlim : limit_for (run_calls self calls).1 a = limit_for self a).
  { apply (run_calls_invariant (fun s => limit_for s a = limit_for self a)); [|done].
    intros s b t Hs. by rewrite check_and_update_limit_for. }
  rewrite Hcfg in *. rewrite Hlim in *.
  unfold timestamps_of at 2 in Ha. simpl in Ha. rewrite lookup_empty in Ha. simpl in Ha.
  lia.
Qed.

Lemma Qltb_false x y : Qltb x y = false -> (y <= x)%Q.
Proof.
  unfold Qltb. intros H. apply Qle_bool_iff.
  by destruct (Qle_bool y x).
Qed.

Lemma Qltb_lt x y : (x < y)%Q -> Qltb x y = true.
Proof.
  intros H. unfold Qltb. destruct (Qle_bool y x) eqn:E; [|done].
  apply Qle_bool_iff in E. by apply Qlt_not_le in H.
Qed.

Lemma drop_old_sorted cutoff (l : list Q) :
  StronglySorted Qle l ->
  StronglySorted Qle (drop_old cutoff l) /\ Forall (Qle cutoff) (drop_old cutoff l).
Proof.
  induction 1 as [|x l Hl IH Hx]; simpl; [by split; constructor|].
  destruct (Qltb x cutoff) eqn:E; [done|].
  apply Qltb_false in E. split; [by constructor|].
  constructor; [done|].
  eapply Forall_impl; [exact Hx|]. intros y Hy. simpl in Hy.
  by apply Qle_trans with x.
Qed.


Lemma sorted_snoc (l : list Q) t :
  StronglySorted Qle l -> Forall (fun x => (x <= t)%Q) l ->
  StronglySorted Qle (l ++ [t]).
Proof.
  induction 1 as [|x l Hl IH Hx]; intros Ht; simpl.
  - constructor; constructor.
  - apply Forall_cons in Ht as [Hxt Ht]. constructor; [by apply IH|].
    apply Forall_app. split; [done | by constructor].
Qed.

Lemma sorted_window_step (l : list Q) cutoff now t (record : bool) :
  (now <= t)%Q ->
  StronglySorted Qle l /\ Forall (fun x => (x <= now)%Q) l ->
  forall l', (l' = l \/ l' = drop_old cutoff l) ->
  StronglySorted Qle (l' ++ (if record then [t] else []))
  /\ Forall (fun x => (x <= t)%Q) (l' ++ (if record then [t] else [])).
Proof.
  intros Hnow [Hs Hb] l' Hl'.
  assert (Hs' : StronglySorted Qle l').
  { destruct Hl' as [-> | ->]; [done | by apply drop_old_sorted]. }
  assert (Hb' : Forall (fun x => (x <= t)%Q) l').
  { assert (Hbt : Forall (fun x => (x <= t)%Q) l).
    { eapply Forall_impl; [exact Hb|]. intros y Hy. simpl in Hy.
      by apply Qle_trans with now. }
    destruct Hl' as [-> | ->]; [done | by apply drop_old_Forall]. }
  destruct record.
  - split; [by apply sorted_snoc|].
    apply Forall_app. split; [done|]. constructor; [apply Qle_refl | constructor].
  - by rewrite app_nil_r.
Qed.

Lemma clean_if_due_windows self t :
  let cutoff := (t - window_size (config self))%Q in
  (global_timestamps (clean_if_due self t) = global_timestamps self
   \/ global_timestamps (clean_if_due self t) = drop_old cutoff (global_timestamps self))
  /\ forall a,
       timestamps_of (clean_if_due self t) a = timestamps_of self a
       \/ timestamps_of (clean_if_due self t) a = drop_old cutoff (timestamps_of self a).
Proof.
  unfold clean_if_due. destruct (Qltb _ _); [|by split; [left | left]].
  split; [by right|]. intros a. right.
  change (timestamps_of (_clean_old_timestamps self t) a
          = drop_old (t - window_size (config self)) (timestamps_of self a)).
  apply timestamps_of_clean.
Qed.

Lemma check_and_update_windows_sorted now self a t :
  (now <= t)%Q -> windows_sorted now self ->
  windows_sorted t (check_and_update self a t).1.
Proof.
  intros Hnow [Hg Ha].
  destruct (check_and_update_windows self a t) as [Eg Ea].
  destruct (clean_if_due_windows self t) as [Cg Ca].
  split.
  - rewrite Eg. by eapply sorted_window_step.
  - intros b. rewrite Ea. eapply sorted_window_step; [done | apply Ha | apply Ca].
Qed.

Lemma run_calls_windows_sorted (calls : list (Z * Q)) :
  forall now self,
  windows_sorted now self -> clock_monotone now calls ->
  exists now', windows_sorted now' (run_calls self calls).1.
Proof.
  induction calls as [|[a t] calls IH]; intros now self Hs Hm; simpl.
  { by exists now. }
  destruct Hm as [Hnow Hm].
  pose proof (check_and_update_windows_sorted now self a t Hnow Hs) as Hs'.
  destruct (check_and_update self a t) as [s' answer]; simpl in *.
  destruct (IH t s' Hs' Hm) as [now' H].
  exists now'. by destruct (run_calls s' calls).
Qed.

(** X7. When the clock readings of the calls never go back, every window
    of a limiter that started fresh is in non-decreasing order. *)
Theorem windows_stay_in_clock_order cfg now (calls : list (Z * Q)) :
  clock_monotone now calls ->
  let self := (run_calls (new_RateLimiter cfg now) calls).1 in
  StronglySorted Qle (global_timestamps self)
  /\ forall a, StronglySorted Qle (timestamps_of self a).
Proof.
  intros Hm self.
  destruct (run_calls_windows_sorted calls now (new_RateLimiter cfg now)) as [now' H];
    [|done|].
  - split; [by split; constructor|]. intros a. split; constructor.
  - destruct H as [[Hg _] Ha]. split; [done|]. intros a. apply Ha.
Qed.



(** X10. After [reset] a limiter answers like a fresh one with the same
    configuration: within one window the two give the same answers to
    the same calls, whatever the limiter had recorded before. *)
Theorem reset_answers_like_fresh self now now' bound (calls : list (Z * Q)) :
  critical_addresses self = critical_addresses (new_RateLimiter None now') ->
  Forall (fun c => in_window bound (window_size (config self)) c.2) calls ->
  (run_calls (reset self now) calls).2
  = (run_calls (new_RateLimiter (Some (config self)) now') calls).2.
Proof.
  intros Hk Hw.
  by apply (run_calls_same_counts bound bound).
Qed.

End RateLimiterInvariants.

(** * The rule engine: when a frame passes *)

Section RuleEngineVerdicts.

Implicit Types (self : SafetyRules) (address bus : Z) (data : list Byte.byte).

Lemma is_empty_app_iff {A : Type} (l1 l2 : list A) :
  is_empty (l1 ++ l2) = true <-> l1 = [] /\ l2 = [].
Proof. destruct l1, l2; simpl; split; try done; intros [? ?]; done. Qed.

Lemma classify_address_cases self address :
  classify_address self address
  = if bool_decide (mode self = LOCKED) then ([locked_violation], [])
    else if bool_decide (address ∈ blocked_addresses self)
         then ([blocked_violation (mode self) address], [])
         else match CRITICAL_ADDRESSES !! address with
              | Some info =>
                  if bool_decide (mode self = PRODUCTION)
                  then ([critical_violation info], [])
                  else ([], [critical_warning info address])
              | None => ([], [])
              end.
Proof. reflexivity. Qed.

Lemma classify_address_none_iff self address :
  (classify_address self address).1 = []
  <-> mode self <> LOCKED
      /\ (address ∉ blocked_addresses self)
      /\ (mode self = PRODUCTION -> CRITICAL_ADDRESSES !! address = None).
Proof.
  rewrite classify_address_cases.
  destruct (decide (mode self = LOCKED)) as [Hl | Hl].
  { rewrite bool_decide_eq_true_2 by done. simpl. split; [done | tauto]. }
  rewrite bool_decide_eq_false_2 by done.
  destruct (decide (address ∈ blocked_addresses self)) as [Hb | Hb].
  { rewrite bool_decide_eq_true_2 by done. simpl. split; [done | tauto]. }
  rewrite bool_decide_eq_false_2 by done.
  destruct (CRITICAL_ADDRESSES !! address) as [info|]; [|simpl; tauto].
  destruct (decide (mode self = PRODUCTION)) as [Hp | Hp].
  - rewrite bool_decide_eq_true_2 by done. simpl.
    split; [done|]. intros (_ & _ & H). by specialize (H Hp).
  - rewrite bool_decide_eq_false_2 by done. simpl. tauto.
Qed.

Lemma structural_violations_none_iff data bus :
  structural_violations data bus = []
  <-> 0 <= bus <= 2 /\ (length data <= 8)%nat.
Proof.
  unfold structural_violations, check_data_length, check_bus.
  destruct (decide (bus ∈ [0; 1; 2])) as [Hb | Hb].
  - rewrite bool_decide_eq_true_2 by done. rewrite app_nil_r.
    assert (Hr : 0 <= bus <= 2).
    { rewrite !elem_of_cons, elem_of_nil in Hb. lia. }
    replace (bus <? 3) with true by lia.
    destruct (_ >? 8) eqn:Hlen; split; try done; intros; lia.
  - rewrite bool_decide_eq_false_2 by done.
    split; [intros H; by apply app_eq_nil in H as [_ H]|].
    intros [Hr _]. exfalso. apply Hb.
    rewrite !elem_of_cons, elem_of_nil. lia.
Qed.

(** X11. A frame passes validation exactly when the mode is not LOCKED,
    the address is not blocked, the address is not in the policy table
    if the mode is PRODUCTION, the bus is 0, 1 or 2 and the payload has
    at most 8 bytes. *)
Theorem validation_passes_exactly_when self address data bus :
  passed (validate_message self address data bus) = true
  <-> mode self <> LOCKED
      /\ (address ∉ blocked_addresses self)
      /\ (mode self = PRODUCTION -> CRITICAL_ADDRESSES !! address = None)
      /\ 0 <= bus <= 2
      /\ (length data <= 8)%nat.
Proof.
  rewrite validate_passed, validate_violations, is_empty_app_iff.
  rewrite classify_address_none_iff, structural_violations_none_iff. tauto.
Qed.

(** X12. The result of validation can be overridden exactly when the bus
    is 0, 1 or 2, the payload has at most 8 bytes, the mode is not
    LOCKED, and the address is blocked only if the mode is DEVELOPMENT:
    a failure of the length or bus check is never overridable. *)
Theorem result_overridable_exactly_when self address data bus :
  result_can_override (validate_message self address data bus) = true
  <-> 0 <= bus <= 2
      /\ (length data <= 8)%nat
      /\ mode self <> LOCKED
      /\ (address ∈ blocked_addresses self -> mode self = DEVELOPMENT).
Proof.
  unfold result_can_override. rewrite validate_violations, forallb_app.
  rewrite andb_true_iff.
  assert (Hs : forallb can_override (structural_violations data bus) = true
               <-> 0 <= bus <= 2 /\ (length data <= 8)%nat).
  { rewrite <- structural_violations_none_iff.
    unfold structural_violations, check_data_length, check_bus.
    destruct (bool_decide _); destruct (bus <? 3); destruct (_ >? _); simpl;
      split; done. }
  assert (Hc : forallb can_override (classify_address self address).1 = true
               <-> mode self <> LOCKED
                   /\ (address ∈ blocked_addresses self -> mode self = DEVELOPMENT)).
  { rewrite classify_address_cases.
    destruct (decide (mode self = LOCKED)) as [Hl | Hl].
    { rewrite bool_decide_eq_true_2 by done. simpl. split; [done | tauto]. }
    rewrite bool_decide_eq_false_2 by done.
    destruct (decide (address ∈ blocked_addresses self)) as [Hb | Hb].
    { rewrite bool_decide_eq_true_2 by done. simpl. rewrite andb_true_r.
      rewrite bool_decide_eq_true. tauto. }
    rewrite bool_decide_eq_false_2 by done.
    destruct (CRITICAL_ADDRESSES !! address) as [info|]; [|simpl; tauto].
    destruct (bool_decide (mode self = PRODUCTION)); simpl; tauto. }
  rewrite Hs, Hc. tauto.
Qed.

(** X13. The result of validation requires confirmation exactly when the
    mode is PRODUCTION and the address is an address of the policy table
    that is not blocked. *)
Theorem confirmation_required_exactly_when self address data bus :
  result_requires_confirmation (validate_message self address data bus) = true
  <-> mode self = PRODUCTION
      /\ (address ∉ blocked_addresses self)
      /\ is_Some (CRITICAL_ADDRESSES !! address).
Proof.
  unfold result_requires_confirmation. rewrite validate_violations, existsb_app.
  assert (Hs : existsb requires_confirmation (structural_violations data bus) = false).
  { unfold structural_violations, check_data_length, check_bus.
    destruct (bool_decide _); destruct (bus <? 3); destruct (_ >? _); done. }
  rewrite Hs, orb_false_r. rewrite classify_address_cases.
  destruct (decide (mode self = LOCKED)) as [Hl | Hl].
  { rewrite bool_decide_eq_true_2 by done. simpl.
    split; [done|]. intros (Hp & _). congruence. }
  rewrite bool_decide_eq_false_2 by done.
  destruct (decide (address ∈ blocked_addresses self)) as [Hb | Hb].
  { rewrite bool_decide_eq_true_2 by done. simpl. split; [done | tauto]. }
  rewrite bool_decide_eq_false_2 by done.
  destruct (CRITICAL_ADDRESSES !! address) as [info|].
  - destruct (decide (mode self = PRODUCTION)) as [Hp | Hp].
    + rewrite bool_decide_eq_true_2 by done. simpl. split; [|done].
      intros _. split_and!; [done | done | by eexists].
    + rewrite bool_decide_eq_false_2 by done. simpl. split; [done | tauto].
  - simpl. split; [done|]. intros (_ & _ & [x Hx]). discriminate Hx.
Qed.

Lemma default_blocked_nested :
  DEFAULT_BLOCKED DEVELOPMENT ⊆ DEFAULT_BLOCKED TESTING
  /\ DEFAULT_BLOCKED TESTING ⊆ DEFAULT_BLOCKED PRODUCTION.
Proof. split; simpl; set_solver. Qed.

(** X14. With the default blocked sets the modes are ordered from strict
    to lenient: no frame passes in LOCKED mode, a frame that passes in
    PRODUCTION passes in TESTING, and a frame that passes in TESTING
    passes in DEVELOPMENT. *)
Theorem default_modes_are_ordered address data bus :
  let passes m := passed (validate_message (new_SafetyRules m None) address data bus) in
  passes LOCKED = false
  /\ (passes PRODUCTION = true -> passes TESTING = true)
  /\ (passes TESTING = true -> passes DEVELOPMENT = true).
Proof.
  intros passes. destruct default_blocked_nested as [Hdt Htp].
  split_and!.
  - apply not_true_is_false. unfold passes. rewrite validate_passed, validate_violations.
    by rewrite classify_locked.
  - unfold passes.
    pose proof (proj1 (classify_address_none_iff (new_SafetyRules PRODUCTION None) address)) as Hp.
    pose proof (proj2 (classify_address_none_iff (new_SafetyRules TESTING None) address)) as Ht.
    rewrite !validate_passed, !validate_violations.
    destruct (classify_address (new_SafetyRules PRODUCTION None) address).1; [|done].
    intros H. rewrite Ht; [done|]. destruct (Hp eq_refl) as (_ & Hb & _).
    split_and!; [done | | done]. simpl in *. set_solver.
  - unfold passes.
    pose proof (proj1 (classify_address_none_iff (new_SafetyRules TESTING None) address)) as Hp.
    pose proof (proj2 (classify_address_none_iff (new_SafetyRules DEVELOPMENT None) address)) as Ht.
    rewrite !validate_passed, !validate_violations.
    destruct (classify_address (new_SafetyRules TESTING None) address).1; [|done].
    intros H. rewrite Ht; [done|].
    split_and!; [done | | done]. simpl. set_solver.
Qed.

Lemma critical_warning_is_no_advisory info address :
  critical_warning info address <> development_warning
  /\ critical_warning info address <> empty_payload_warning.
Proof. unfold critical_warning. split; simpl; discriminate. Qed.

Lemma classify_address_warnings self address :
  (classify_address self address).2 = []
  \/ (mode self <> PRODUCTION
      /\ exists info, (classify_address self address).2 = [critical_warning info address]).
Proof.
  rewrite classify_address_cases.
  destruct (bool_decide _); [by left|].
  destruct (bool_decide _); [by left|].
  destruct (CRITICAL_ADDRESSES !! address) as [info|]; [|by left].
  destruct (decide (mode self = PRODUCTION)) as [Hp | Hp].
  - rewrite bool_decide_eq_true_2 by done. by left.
  - rewrite bool_decide_eq_false_2 by done. right. split; [done | by exists info].
Qed.

(** X15. The two advisory warnings depend on the mode and on the result
    alone.  The development warning is issued exactly when the mode is
    DEVELOPMENT and the frame passes; the empty-payload warning exactly
    when the mode is PRODUCTION, the frame passes and the payload is
    empty. *)
Theorem advisory_warnings_exactly_when self address data bus :
  let r := validate_message self address data bus in
  (development_warning ∈ warnings r
   <-> mode self = DEVELOPMENT /\ passed r = true)
  /\ (empty_payload_warning ∈ warnings r
      <-> mode self = PRODUCTION /\ passed r = true /\ data = []).
Proof.
  intros r. unfold r. rewrite validate_passed, validate_warnings.
  set (vs := violations (validate_message self address data bus)).
  set (ws0 := (classify_address self address).2).
  assert (Hno : (development_warning ∉ ws0) /\ (empty_payload_warning ∉ ws0)).
  { destruct (classify_address_warnings self address) as [E | (_ & info & E)];
      fold ws0 in E; rewrite E.
    - split; apply not_elem_of_nil.
    - destruct (critical_warning_is_no_advisory info address) as [H1 H2].
      split; intros H; apply list_elem_of_singleton in H; congruence. }
  assert (Hprod : mode self = PRODUCTION -> ws0 = []).
  { intros Hp. destruct (classify_address_warnings self address) as [E | (Hn & _)]; done. }
  destruct Hno as [Hd He]. rewrite !elem_of_app.
  unfold general_warnings.
  destruct (decide (mode self = DEVELOPMENT)) as [Hm | Hm].
  { rewrite Hm in *. simpl. destruct (is_empty vs); simpl;
      (split; split; settle_advisory). }
  rewrite (bool_decide_eq_false_2 (mode self = DEVELOPMENT)) by done. simpl.
  destruct (decide (mode self = PRODUCTION)) as [Hp | Hp].
  { rewrite (bool_decide_eq_true_2 (mode self = PRODUCTION)) by done. simpl.
    rewrite (Hprod Hp) in *. simpl.
    destruct (is_empty vs); simpl; [destruct data as [|x data]; simpl|];
      (split; split; settle_advisory). }
  rewrite (bool_decide_eq_false_2 (mode self = PRODUCTION)) by done. simpl.
  split; split; settle_advisory.
Qed.

End RuleEngineVerdicts.

(** * The send path: what a call leaves behind *)

Section SendEffects.

Context {Transport : Type}.
Variable _send_raw :
  Transport -> Z -> list Byte.byte -> Z -> Transport * option PyException.

Implicit Types (self : BaseCANInterface Transport) (address bus : Z).
Implicit Types (data : list Byte.byte) (force : bool) (now : Q).

Lemma safety_stage_stats self address data bus force :
  stats (safety_stage self address data bus force).1
  = stats_after_rules self address data bus force.
Proof.
  unfold safety_stage, stats_after_rules, effective_result, rules_consulted.
  destruct (safety self) as [rules|]; [|done].
  destruct force; [done|]. simpl.
  destruct (passed (validate_message rules address data bus)); [done|]. simpl.
  destruct (result_can_override _); [done|].
  by destruct (violations _).
Qed.

Lemma rate_limit_stage_stats self address now :
  stats (rate_limit_stage self address now).1 = stats self
  /\ rate_limiter (rate_limit_stage self address now).1
     = limiter_after_check self address now.
Proof.
  unfold rate_limit_stage, limiter_after_check.
  destruct (rate_limiter self) as [limiter|] eqn:E; simpl; [|by rewrite E].
  by destruct (check_and_update limiter address now) as [limiter' [[] reason]].
Qed.

Lemma transmit_stage_stats self address data bus :
  stats (transmit_stage _send_raw self address data bus).1
  = match (_send_raw (transport self) address data bus).2 with
    | None => count_sent (stats self)
    | Some _ => count_error (stats self)
    end.
Proof.
  unfold transmit_stage.
  by destruct (_send_raw (transport self) address data bus) as [tr [e|]].
Qed.

(** The counters and the limiter after a [send] of a frame that
    [CANMessage] accepts, in the three cases of [send_cases]. *)
Lemma send_effects self address data bus force now :
  (exists msg, new_CANMessage address data bus now = inr msg) ->
  let r := send _send_raw self address data bus force now in
  let counted := stats_after_rules self address data bus force in
  if rejected_by_rules self address data bus force then
    stats r.1 = counted /\ rate_limiter r.1 = rate_limiter self
  else if denied_by_limiter self address now then
    stats r.1 = counted /\ rate_limiter r.1 = limiter_after_check self address now
  else
    rate_limiter r.1 = limiter_after_check self address now
    /\ stats r.1 = match (_send_raw (transport self) address data bus).2 with
                  | None => count_sent counted
                  | Some _ => count_error counted
                  end.
Proof.
  intros [msg Hmsg]. unfold send. rewrite Hmsg. clear msg Hmsg.
  destruct (safety_stage_spec self address data bus force) as (_ & Hl1 & Ht1 & Ho1).
  pose proof (safety_stage_stats self address data bus force) as Hs1.
  destruct (safety_stage self address data bus force) as [s1 o1]; simpl in *.
  destruct (rejected_by_rules self address data bus force).
  { destruct Ho1 as (v & rest & _ & ->). by simpl. }
  subst o1; simpl.
  destruct (rate_limit_stage_spec s1 address now) as (Ht2 & Ho2).
  destruct (rate_limit_stage_stats s1 address now) as [Hs2 Hl2].
  assert (Hafter : limiter_after_check s1 address now = limiter_after_check self address now).
  { unfold limiter_after_check. by rewrite Hl1. }
  unfold denied_by_limiter. rewrite <- Hl1.
  destruct (rate_limiter s1) as [limiter|].
  - destruct Ho2 as (_ & _ & Ho2).
    destruct (rate_limit_stage s1 address now) as [s2 o2]; simpl in *.
    destruct (check_and_update limiter address now).2.1; subst o2; simpl.
    + destruct (transmit_stage_spec _send_raw s2 address data bus) as (_ & _ & Hl3 & Ho3).
      pose proof (transmit_stage_stats s2 address data bus) as Hs3.
      destruct (transmit_stage _send_raw s2 address data bus) as [s3 o3]; simpl in *.
      rewrite Ht2, Ht1 in *.
      destruct (_send_raw _ _ _ _).2; subst o3; simpl; split; congruence.
    + split; congruence.
  - rewrite Ho2 in *; simpl in *.
    destruct (transmit_stage_spec _send_raw s1 address data bus) as (_ & _ & Hl3 & Ho3).
    pose proof (transmit_stage_stats s1 address data bus) as Hs3.
    destruct (transmit_stage _send_raw s1 address data bus) as [s3 o3]; simpl in *.
    rewrite Ht1 in *.
    destruct (_send_raw _ _ _ _).2; subst o3; simpl; split; congruence.
Qed.

Lemma well_formed_accepted address data bus now :
  well_formed_frame address bus ->
  exists msg, new_CANMessage address data bus now = inr msg.
Proof. intros Hwf. eexists. by apply new_CANMessage_well_formed. Qed.

Lemma stats_after_rules_counters self address data bus force :
  let counted := stats_after_rules self address data bus force in
  messages_sent counted = messages_sent (stats self)
  /\ messages_received counted = messages_received (stats self)
  /\ errors counted = errors (stats self)
  /\ safety_violations counted
     = safety_violations (stats self)
       + (if rules_consulted self force
             && negb (passed (effective_result self address data bus force))
          then 1 else 0).
Proof.
  unfold stats_after_rules. destruct (_ && _); simpl; split_and!; lia.
Qed.


(** X16. A frame that [CANMessage] does not accept (address outside
    0..0x1FFFFFFF or bus outside 0..2) makes [send] raise [ValueError]
    before anything else happens: the interface is left as it was. *)
Theorem malformed_frame_raises_value_error self address data bus force now :
  ~ well_formed_frame address bus ->
  exists msg,
    send _send_raw self address data bus force now = (self, inl (ValueError msg)).
Proof.
  intros Hwf. unfold send, new_CANMessage.
  destruct ((0 <=? address) && (address <=? 0x1FFFFFFF)) eqn:Ha; simpl; [|by eexists].
  destruct ((0 <=? bus) && (bus <=? 2)) eqn:Hb; simpl; [|by eexists].
  exfalso. apply Hwf. unfold well_formed_frame. lia.
Qed.


(** X18. A validation failure that can be overridden does not stop
    [send], and [send] asks for no confirmation: when the rules are
    consulted, the frame fails them, every violation can be overridden
    and the limiter does not deny, the frame is passed to [_send_raw]
    and one safety violation is counted; if the transport accepts it,
    [send] returns the failing result and counts the message as sent. *)
Theorem overridable_failure_is_sent self rules address data bus now :
  safety self = Some rules ->
  well_formed_frame address bus ->
  passed (validate_message rules address data bus) = false ->
  result_can_override (validate_message rules address data bus) = true ->
  denied_by_limiter self address now = false ->
  let r := send _send_raw self address data bus false now in
  handed_frames (calls r.1) = handed_frames (calls self) ++ [(address, data, bus)]
  /\ safety_violations (stats r.1) = safety_violations (stats self) + 1
  /\ ((_send_raw (transport self) address data bus).2 = None ->
      r.2 = inr (validate_message rules address data bus)
      /\ messages_sent (stats r.1) = messages_sent (stats self) + 1).
Proof.
  intros Hs Hwf Hp Ho Hden r.
  pose proof (well_formed_accepted address data bus now Hwf) as Hmsg.
  pose proof (send_cases _send_raw self address data bus false now Hmsg) as Hc.
  pose proof (send_effects self address data bus false now Hmsg) as He.
  pose proof (stats_after_rules_counters self address data bus false) as Hst.
  fold r in Hc, He. simpl in Hc, He, Hst.
  assert (Hcons : rules_consulted self false = true).
  { unfold rules_consulted. by rewrite Hs. }
  assert (Heff : effective_result self address data bus false
                 = validate_message rules address data bus).
  { unfold effective_result. by rewrite Hs. }
  assert (Hrej : rejected_by_rules self address data bus false = false).
  { unfold rejected_by_rules. rewrite Hcons, Heff, Hp, Ho. done. }
  rewrite Hrej, Hden in Hc, He. rewrite Hcons, Heff, Hp in Hst. simpl in Hst.
  destruct Hc as (Hcalls & _ & Hout). destruct He as [_ Hstats].
  destruct Hst as (Hsent & _ & _ & Hviol).
  split_and!.
  - rewrite Hcalls, !handed_frames_app, Hcons. simpl.
    by destruct (rate_limiter self).
  - rewrite Hstats. by destruct (_send_raw _ _ _ _).2.
  - intros Hraw. rewrite Hraw in Hout, Hstats. rewrite Hout, Hstats, Heff.
    split; [done|]. simpl. lia.
Qed.

(** X19. With [force] the rules are not consulted, whatever the mode:
    unless the limiter denies, the frame is passed to [_send_raw] without
    a call to [validate_message], no safety violation is counted, and on
    success [send] returns the passing result without violations. *)
Theorem force_skips_the_rules self address data bus now :
  well_formed_frame address bus ->
  denied_by_limiter self address now = false ->
  let r := send _send_raw self address data bus true now in
  calls r.1 = calls self
              ++ match rate_limiter self with
                 | Some _ => [CallRateLimiter address true]
                 | None => []
                 end
              ++ [CallSendRaw address data bus]
  /\ safety_violations (stats r.1) = safety_violations (stats self)
  /\ ((_send_raw (transport self) address data bus).2 = None ->
      r.2 = inr {| passed := true; violations := []; warnings := [] |}).
Proof.
  intros Hwf Hden r.
  pose proof (well_formed_accepted address data bus now Hwf) as Hmsg.
  pose proof (send_cases _send_raw self address data bus true now Hmsg) as Hc.
  pose proof (send_effects self address data bus true now Hmsg) as He.
  pose proof (stats_after_rules_counters self address data bus true) as Hst.
  fold r in Hc, He. simpl in Hc, He, Hst.
  assert (Hcons : rules_consulted self true = false).
  { unfold rules_consulted. by destruct (safety self). }
  assert (Heff : effective_result self address data bus true
                 = {| passed := true; violations := []; warnings := [] |}).
  { unfold effective_result. by destruct (safety self). }
  assert (Hrej : rejected_by_rules self address data bus true = false).
  { unfold rejected_by_rules. by rewrite Hcons. }
  rewrite Hrej, Hden in Hc, He. rewrite Hcons in Hc, Hst. simpl in Hc, Hst.
  destruct Hc as (Hcalls & _ & Hout). destruct He as [_ Hstats].
  destruct Hst as (_ & _ & _ & Hviol).
  split_and!; [done | |].
  - rewrite Hstats. destruct (_send_raw _ _ _ _).2; simpl; lia.
  - intros Hraw. by rewrite Hraw, Heff in Hout.
Qed.

(** X20. Quota is not given back when the transport fails: if the
    limiter has allowed the frame and [_send_raw] raises, [send] raises
    the same exception and counts an error, not a sent message, while
    the limiter keeps the call it has recorded, one more timestamp in
    its global window. *)
Theorem quota_is_kept_when_transport_fails self limiter address data bus force now e :
  well_formed_frame address bus ->
  rate_limiter self = Some limiter ->
  rejected_by_rules self address data bus force = false ->
  (check_and_update limiter address now).2.1 = true ->
  (_send_raw (transport self) address data bus).2 = Some e ->
  let r := send _send_raw self address data bus force now in
  r.2 = inl e
  /\ rate_limiter r.1 = Some (check_and_update limiter address now).1
  /\ get_current_rate (check_and_update limiter address now).1 None
     = get_current_rate (clean_if_due limiter now) None + 1
  /\ errors (stats r.1) = errors (stats self) + 1
  /\ messages_sent (stats r.1) = messages_sent (stats self).
Proof.
  intros Hwf Hl Hrej Hok Hraw r.
  pose proof (well_formed_accepted address data bus now Hwf) as Hmsg.
  pose proof (send_cases _send_raw self address data bus force now Hmsg) as Hc.
  pose proof (send_effects self address data bus force now Hmsg) as He.
  pose proof (stats_after_rules_counters self address data bus force) as Hst.
  fold r in Hc, He. simpl in Hc, He, Hst.
  assert (Hden : denied_by_limiter self address now = false).
  { unfold denied_by_limiter. by rewrite Hl, Hok. }
  rewrite Hrej, Hden in Hc, He. rewrite Hraw in Hc, He.
  destruct Hc as (_ & _ & Hout). destruct He as [Hlim Hstats].
  destruct Hst as (Hsent & _ & Herr & _).
  split_and!; [done | | | |].
  - rewrite Hlim. unfold limiter_after_check. by rewrite Hl.
  - unfold get_current_rate.
    destruct (check_and_update_windows limiter address now) as [Hg _].
    rewrite Hg, Hok, length_app. simpl. lia.
  - rewrite Hstats. simpl. lia.
  - rewrite Hstats. simpl. lia.
Qed.

(** X21. The counter of sent messages goes up by one exactly when [send]
    returns normally, and [send] never changes the counter of received
    messages. *)
Theorem sent_counter_counts_normal_returns self address data bus force now :
  let r := send _send_raw self address data bus force now in
  messages_sent (stats r.1)
  = messages_sent (stats self) + (if r.2 is inr _ then 1 else 0)
  /\ messages_received (stats r.1) = messages_received (stats self).
Proof.
  intros r.
  destruct (new_CANMessage address data bus now) as [e | msg] eqn:Hmsg.
  { assert (Hr : r = (self, inl e)) by (unfold r, send; by rewrite Hmsg).
    rewrite Hr. simpl. lia. }
  pose proof (send_cases _send_raw self address data bus force now (ex_intro _ msg Hmsg)) as Hc.
  pose proof (send_effects self address data bus force now (ex_intro _ msg Hmsg)) as He.
  pose proof (stats_after_rules_counters self address data bus force) as Hst.
  fold r in Hc, He. simpl in Hc, He, Hst.
  destruct Hst as (Hsent & Hrecv & _ & _).
  destruct (rejected_by_rules self address data bus force).
  { destruct Hc as (_ & _ & _ & v & rest & _ & Hout). destruct He as [Hstats _].
    rewrite Hout, Hstats. lia. }
  destruct (denied_by_limiter self address now).
  { destruct Hc as (_ & _ & limiter & _ & Hout). destruct He as [Hstats _].
    rewrite Hout, Hstats. lia. }
  destruct Hc as (_ & _ & Hout). destruct He as [_ Hstats].
  rewrite Hout, Hstats. destruct (_send_raw _ _ _ _).2; simpl; lia.
Qed.

End SendEffects.

(** * The mock interface: the receive queue *)

(** X22. On the mock interface, a message added with
    [add_receive_message] goes to the end of the receive queue; the next
    [receive] returns the whole queue in the order of arrival, counts its
    messages as received and leaves the queue empty, so that a second
    [receive] returns no message.  The sent messages are not touched. *)
Theorem mock_receive_returns_the_queue_once
    (self : BaseCANInterface MockState) (address : Z) (data : list Byte.byte)
    (bus : Z) (now : Q) (timeout timeout' : option Q) :
  well_formed_frame address bus ->
  let queued := (add_receive_message now self address data bus).1 in
  let first := receive mock_receive_raw queued timeout in
  let second := receive mock_receive_raw first.1 timeout' in
  first.2 = inr (receive_queue (transport self) ++ [mkCANMessage address data bus now])
  /\ receive_queue (transport first.1) = []
  /\ sent_messages (transport first.1) = sent_messages (transport self)
  /\ messages_received (stats first.1)
     = messages_received (stats self)
       + Z.of_nat (length (receive_queue (transport self))) + 1
  /\ second.2 = inr []
  /\ messages_received (stats second.1) = messages_received (stats first.1).
Proof.
  intros Hwf queued first second.
  unfold second, first, queued, add_receive_message.
  rewrite (new_CANMessage_well_formed _ _ _ _ Hwf).
  unfold receive, mock_receive_raw. simpl.
  split_and!; try done.
  - rewrite length_app. simpl. lia.
  - lia.
Qed.

(** * The rules and the rate limiter of the scripts *)

Section ScriptLimiter.

Implicit Types (self : Script.RateLimiter) (address a : Z) (t : Q).

Lemma keep_recent_spec cutoff (l : list Q) x :
  x ∈ Script.keep_recent cutoff l <-> x ∈ l /\ (cutoff < x)%Q.
Proof.
  unfold Script.keep_recent. rewrite list_elem_of_filter.
  split; intros [H1 H2]; split; try done.
  - unfold Qltb in H1. destruct (Qle_bool x cutoff) eqn:E; [done|].
    apply Qnot_le_lt. intros Hle. apply Qle_bool_iff in Hle. congruence.
  - by apply Qltb_lt.
Qed.

Lemma keep_recent_idempotent cutoff (l : list Q) :
  Script.keep_recent cutoff (Script.keep_recent cutoff l) = Script.keep_recent cutoff l.
Proof.
  unfold Script.keep_recent. induction l as [|x l IH]; [done|].
  destruct (decide (Qltb cutoff x = true)) as [H | H].
  - rewrite (filter_cons_True _ x l H). rewrite (filter_cons_True _ x _ H).
    by rewrite IH.
  - by rewrite (filter_cons_False _ x l H).
Qed.



(** X23. After [_clean_old_entries] of the scripts' limiter every stored
    timestamp is later than the cutoff [current_time - window_size],
    whatever the order of the entries was, and no address is left with
    an empty list. *)
Theorem script_clean_keeps_only_the_window self t :
  let cleaned := Script._clean_old_entries self t in
  let cutoff := (t - Script.window_size self)%Q in
  Forall (fun x => (cutoff < x)%Q) (Script.global_times cleaned)
  /\ forall a l, Script.message_times cleaned !! a = Some l ->
       l <> [] /\ Forall (fun x => (cutoff < x)%Q) l.
Proof.
  intros cleaned cutoff. split.
  - apply Forall_forall. intros x Hx. simpl in Hx.
    by apply keep_recent_spec in Hx as [_ Hx].
  - intros a l Hl. unfold cleaned, Script._clean_old_entries in Hl; simpl in Hl.
    rewrite lookup_omap in Hl.
    destruct (Script.message_times self !! a) as [l0|]; simpl in Hl; [|done].
    destruct (Script.keep_recent (t - Script.window_size self) l0) as [|x k] eqn:E;
      simpl in Hl; [done|].
    injection Hl as <-. split; [done|].
    apply Forall_forall. intros y Hy. rewrite <- E in Hy.
    by apply keep_recent_spec in Hy as [_ Hy].
Qed.


Lemma script_check_rate_state self a t :
  (Script.check_rate self a t).1 = Script._clean_old_entries self t.
Proof.
  unfold Script.check_rate.
  destruct (_ >=? _); [done|].
  destruct (_ !! a); [|done]. by destruct (_ >=? _).
Qed.

Lemma script_clean_idempotent self t :
  Script._clean_old_entries (Script._clean_old_entries self t) t
  = Script._clean_old_entries self t.
Proof.
  unfold Script._clean_old_entries; simpl. f_equal.
  - apply map_eq. intros a. rewrite !lookup_omap.
    destruct (Script.message_times self !! a) as [l|]; simpl; [|done].
    destruct (Script.keep_recent (t - Script.window_size self) l) as [|x k] eqn:E;
      simpl; [done|].
    rewrite <- E, keep_recent_idempotent, E. done.
  - apply keep_recent_idempotent.
Qed.

(** X25. [check_rate] of the scripts records nothing: it leaves the
    limiter as [_clean_old_entries] leaves it, so asking again at the
    same clock reading, for any address, gives the answer it would have
    given at first and changes nothing more. *)
Theorem script_check_rate_records_nothing self a a' t :
  let checked := (Script.check_rate self a t).1 in
  checked = Script._clean_old_entries self t
  /\ Script.check_rate checked a' t
     = (checked, (Script.check_rate self a' t).2).
Proof.
  intros checked. unfold checked. rewrite script_check_rate_state.
  split; [done|].
  unfold Script.check_rate. rewrite script_clean_idempotent.
  destruct (_ >=? _); [done|].
  destruct (_ !! a'); [|done]. by destruct (_ >=? _).
Qed.



End ScriptLimiter.

Section ScriptRules.

Implicit Types (msg : Script.CANMessage) (mode : SafetyMode).

Lemma script_check_address_none_iff msg mode :
  Script.check_address msg mode = None
  <-> forall critical_type,
        Script.CRITICAL_ADDRESSES !! Script.address msg = Some critical_type ->
        mode <> PRODUCTION
        /\ (mode = TESTING -> critical_type ∉ ["STEERING"; "BRAKE"; "THROTTLE"]).
Proof.
  unfold Script.check_address.
  destruct (Script.CRITICAL_ADDRESSES !! Script.address msg) as [ty|]; [|done].
  destruct (decide (mode = PRODUCTION)) as [Hp | Hp].
  { rewrite bool_decide_eq_true_2 by done. split; [done|].
    intros H. by destruct (H ty eq_refl). }
  rewrite bool_decide_eq_false_2 by done.
  destruct (decide (mode = TESTING)) as [Ht | Ht].
  - rewrite bool_decide_eq_true_2 by done. simpl.
    destruct (decide (ty ∈ ["STEERING"; "BRAKE"; "THROTTLE"])) as [Hin | Hin].
    + rewrite bool_decide_eq_true_2 by done. split; [done|].
      intros H. destruct (H ty eq_refl) as [_ Hn]. by specialize (Hn Ht).
    + rewrite bool_decide_eq_false_2 by done. split; [|done].
      intros _ ty' [= <-]. done.
  - rewrite bool_decide_eq_false_2 by done. simpl. split; [|done].
    intros _ ty' [= <-]. done.
Qed.

Lemma script_check_bus_iff msg :
  (Script.check_bus_number msg).1 = true <-> 0 <= Script.bus msg <= 2.
Proof.
  unfold Script.check_bus_number.
  destruct (decide (Script.bus msg ∈ [0; 1; 2])) as [Hb | Hb].
  - rewrite bool_decide_eq_true_2 by done. simpl.
    rewrite !elem_of_cons, elem_of_nil in Hb. split; [lia | done].
  - rewrite bool_decide_eq_false_2 by done. simpl. split; [done|].
    intros Hr. exfalso. apply Hb. rewrite !elem_of_cons, elem_of_nil. lia.
Qed.

(** X27. The rules of the scripts accept a message exactly when the mode
    is not LOCKED, the address is not critical or else the mode is
    DEVELOPMENT, or TESTING with a type other than STEERING, BRAKE and
    THROTTLE, the payload is within the limit and the bus is 0, 1 or 2.
    The limit is 64 bytes for a message with the [fd] flag and 8 without
    in [can_cli.py], and 8 bytes for every message in [can_cli_v2.py]. *)
Theorem script_rules_accept_exactly_when msg mode :
  let accepted limit :=
    mode <> LOCKED
    /\ (forall critical_type,
          Script.CRITICAL_ADDRESSES !! Script.address msg = Some critical_type ->
          mode <> PRODUCTION
          /\ (mode = TESTING -> critical_type ∉ ["STEERING"; "BRAKE"; "THROTTLE"]))
    /\ Z.of_nat (length (Script.data msg)) <= limit
    /\ 0 <= Script.bus msg <= 2 in
  ((Script.validate_message msg mode).1 = true
   <-> accepted (if Script.fd msg then 64 else 8))
  /\ ((Script.validate_message_v2 msg mode).1 = true <-> accepted 8).
Proof.
  intros accepted. unfold accepted, Script.validate_message, Script.validate_message_v2.
  rewrite <- script_check_address_none_iff, <- script_check_bus_iff.
  destruct (decide (mode = LOCKED)) as [Hl | Hl].
  { rewrite bool_decide_eq_true_2 by done. simpl. split; (split; [done | tauto]). }
  rewrite bool_decide_eq_false_2 by done.
  destruct (Script.check_address msg mode) as [reason|]; simpl.
  { split; (split; [done|]); intros (_ & H & _); discriminate H. }
  assert (Hlen : forall (over : bool) limit (answer : bool * string),
            over = (Z.of_nat (length (Script.data msg)) >? limit) ->
            ((if over then (false, "") else answer).1 = true
             <-> mode <> LOCKED /\ @None string = None
                 /\ Z.of_nat (length (Script.data msg)) <= limit
                 /\ answer.1 = true)).
  { intros over limit answer ->. destruct (_ >? limit) eqn:E; simpl.
    - split; [done|]. intros (_ & _ & H & _). lia.
    - split; [|by intros (_ & _ & _ & H)]. intros H. split_and!; [done | done | lia | done]. }
  split.
  - destruct (Script.fd msg); simpl.
    + rewrite <- (Hlen _ 64 (Script.check_bus_number msg) eq_refl).
      by destruct (_ >? 64).
    + rewrite <- (Hlen _ 8 (Script.check_bus_number msg) eq_refl).
      by destruct (_ >? 8).
  - rewrite <- (Hlen _ 8 (Script.check_bus_number msg) eq_refl).
    by destruct (_ >? 8).
Qed.


End ScriptRules.

(** * Instances of the properties above *)

Lemma burst_tokens_stay_in_range_witness :
  0 <= burst_size (default default_RateLimitConfig (Some (limit3_config 10)))
  /\ 0 <= tokens_of
            (run_calls (new_RateLimiter (Some (limit3_config 10)) 0%Q)
               [(0x100, 0%Q); (0x100, 0%Q); (0x100, 0%Q); (0x100, 0%Q)]).1 0x100
     <= 10.
Proof.
  split; [by vm_compute|].
  apply (burst_tokens_stay_in_range (Some (limit3_config 10)) 0%Q
           [(0x100, 0%Q); (0x100, 0%Q); (0x100, 0%Q); (0x100, 0%Q)] 0x100).
  by vm_compute.
Defined.

Lemma address_window_never_exceeds_limit_plus_burst_witness :
  0 <= burst_size (default default_RateLimitConfig (Some (limit3_config 10)))
  /\ get_current_rate
       (run_calls (new_RateLimiter (Some (limit3_config 10)) 0%Q)
          [(0x100, 0%Q); (0x100, 0%Q); (0x100, 0%Q); (0x100, 0%Q)]).1 (Some 0x100)
     <= Z.max 3 0 + 10.
Proof.
  split; [by vm_compute|].
  apply (address_window_never_exceeds_limit_plus_burst (Some (limit3_config 10)) 0%Q
           [(0x100, 0%Q); (0x100, 0%Q); (0x100, 0%Q); (0x100, 0%Q)] 0x100).
  by vm_compute.
Defined.

Lemma denied_call_records_nothing_witness :
  let self := new_RateLimiter (Some (mkRateLimitConfig 0 100 10 1 10)) 0%Q in
  (check_and_update self 0x123 0%Q).2.1 = false
  /\ global_timestamps (check_and_update self 0x123 0%Q).1
     = global_timestamps (clean_if_due self 0%Q).
Proof.
  split; [reflexivity|].
  apply (denied_call_records_nothing
           (new_RateLimiter (Some (mkRateLimitConfig 0 100 10 1 10)) 0%Q) 0x123 0%Q).
  reflexivity.
Defined.

Lemma allowed_call_records_once_witness :
  let self := new_RateLimiter None 0%Q in
  (check_and_update self 0x123 0%Q).2.1 = true
  /\ global_timestamps (check_and_update self 0x123 0%Q).1
     = global_timestamps (clean_if_due self 0%Q) ++ [0%Q].
Proof.
  split; [reflexivity|].
  apply (allowed_call_records_once (new_RateLimiter None 0%Q) 0x123 0%Q).
  reflexivity.
Defined.

Lemma admitted_calls_within_a_window_witness :
  let calls := [(0x100, 5%Q); (0x100, (11 # 2)%Q); (0x200, (11 # 2)%Q);
                (0x100, (23 # 4)%Q); (0x100, 6%Q)] in
  0 <= burst_size (default default_RateLimitConfig (Some (limit3_config 0)))
  /\ Forall (fun c : Z * Q =>
              in_window 5 (window_size (default default_RateLimitConfig
                                          (Some (limit3_config 0)))) c.2) calls
  /\ Z.of_nat (admitted_for 0x100 calls
                 (run_calls (new_RateLimiter (Some (limit3_config 0)) 0%Q) calls).2)
     <= 3.
Proof.
  assert (H : Forall (fun c : Z * Q =>
                in_window 5 (window_size (default default_RateLimitConfig
                                            (Some (limit3_config 0)))) c.2)
                [(0x100, 5%Q); (0x100, (11 # 2)%Q); (0x200, (11 # 2)%Q);
                 (0x100, (23 # 4)%Q); (0x100, 6%Q)]).
  { repeat (constructor; [split; vm_compute; discriminate|]). constructor. }
  split; [by vm_compute|]. split; [exact H|].
  apply (admitted_calls_within_a_window (Some (limit3_config 0)) 0%Q 5%Q _ 0x100);
    [by vm_compute | exact H].
Defined.

Lemma windows_stay_in_clock_order_witness :
  clock_monotone 0 [(0x100, 0%Q); (0x200, (1 # 2)%Q); (0x100, 2%Q)]
  /\ StronglySorted Qle
       (global_timestamps
          (run_calls (new_RateLimiter None 0%Q)
             [(0x100, 0%Q); (0x200, (1 # 2)%Q); (0x100, 2%Q)]).1).
Proof.
  assert (H : clock_monotone 0 [(0x100, 0%Q); (0x200, (1 # 2)%Q); (0x100, 2%Q)]).
  { simpl. split_and!; [by vm_compute..|exact I]. }
  split; [exact H|].
  apply (windows_stay_in_clock_order None 0%Q _ H).
Defined.



Lemma reset_answers_like_fresh_witness :
  let self := (check_and_update (new_RateLimiter None 0%Q) 0x100 0%Q).1 in
  let calls := [(0x100, 7%Q); (0x200, (15 # 2)%Q)] in
  critical_addresses self = critical_addresses (new_RateLimiter None 3%Q)
  /\ Forall (fun c : Z * Q => in_window 7 (window_size (config self)) c.2) calls
  /\ (run_calls (reset self 7%Q) calls).2
     = (run_calls (new_RateLimiter (Some (config self)) 3%Q) calls).2.
Proof.
  assert (H : Forall (fun c : Z * Q =>
                in_window 7
                  (window_size
                     (config (check_and_update (new_RateLimiter None 0%Q) 0x100 0%Q).1))
                  c.2)
                [(0x100, 7%Q); (0x200, (15 # 2)%Q)]).
  { repeat (constructor; [split; vm_compute; discriminate|]). constructor. }
  split; [reflexivity|]. split; [exact H|].
  apply (reset_answers_like_fresh _ 7%Q 3%Q 7%Q _ eq_refl H).
Defined.

Lemma default_modes_are_ordered_witness :
  passed (validate_message (new_SafetyRules PRODUCTION None) 0x123 [] 0) = true
  /\ passed (validate_message (new_SafetyRules TESTING None) 0x123 [] 0) = true.
Proof.
  split; [reflexivity|].
  apply (default_modes_are_ordered 0x123 [] 0). reflexivity.
Defined.

Lemma malformed_frame_raises_value_error_witness :
  ~ well_formed_frame (-1) 0
  /\ exists msg,
       send (mock_send_raw 0%Q) (new_interface None None) (-1) [] 0 false 0%Q
       = (new_interface None None, inl (ValueError msg)).
Proof.
  assert (H : ~ well_formed_frame (-1) 0) by (unfold well_formed_frame; lia).
  split; [exact H|].
  apply (malformed_frame_raises_value_error (mock_send_raw 0%Q)
           (new_interface None None) (-1) [] 0 false 0%Q H).
Defined.


Lemma overridable_failure_is_sent_witness :
  let rules := new_SafetyRules PRODUCTION None in
  let self := new_interface (Some rules) None in
  well_formed_frame 0x326 0
  /\ passed (validate_message rules 0x326 [] 0) = false
  /\ result_can_override (validate_message rules 0x326 [] 0) = true
  /\ result_requires_confirmation (validate_message rules 0x326 [] 0) = true
  /\ handed_frames (calls (send (mock_send_raw 0%Q) self 0x326 [] 0 false 0%Q).1)
     = handed_frames (calls self) ++ [(0x326, [], 0)].
Proof.
  assert (Hwf : well_formed_frame 0x326 0) by (unfold well_formed_frame; lia).
  split; [exact Hwf|]. split; [reflexivity|]. split; [reflexivity|].
  split; [reflexivity|].
  apply (overridable_failure_is_sent (mock_send_raw 0%Q)
           (new_interface (Some (new_SafetyRules PRODUCTION None)) None)
           (new_SafetyRules PRODUCTION None) 0x326 [] 0 0%Q
           eq_refl Hwf eq_refl eq_refl eq_refl).
Defined.

Lemma force_skips_the_rules_witness :
  let self := new_interface (Some (new_SafetyRules LOCKED None)) None in
  well_formed_frame 0x180 0
  /\ denied_by_limiter self 0x180 0%Q = false
  /\ calls (send (mock_send_raw 0%Q) self 0x180 [] 0 true 0%Q).1
     = calls self ++ [] ++ [CallSendRaw 0x180 [] 0].
Proof.
  assert (Hwf : well_formed_frame 0x180 0) by (unfold well_formed_frame; lia).
  split; [exact Hwf|]. split; [reflexivity|].
  apply (force_skips_the_rules (mock_send_raw 0%Q)
           (new_interface (Some (new_SafetyRules LOCKED None)) None)
           0x180 [] 0 0%Q Hwf eq_refl).
Defined.

Lemma quota_is_kept_when_transport_fails_witness :
  let failing := fun (tr : list CANMessage) (_ : Z) (_ : list Byte.byte) (_ : Z) =>
                   (tr, Some (TransportFailure "bus off")) in
  let limiter := new_RateLimiter None 0%Q in
  let self := new_interface None (Some limiter) in
  well_formed_frame 0x123 0
  /\ (check_and_update limiter 0x123 0%Q).2.1 = true
  /\ (send failing self 0x123 [] 0 false 0%Q).2 = inl (TransportFailure "bus off")
  /\ rate_limiter (send failing self 0x123 [] 0 false 0%Q).1
     = Some (check_and_update limiter 0x123 0%Q).1.
Proof.
  assert (Hwf : well_formed_frame 0x123 0) by (unfold well_formed_frame; lia).
  split; [exact Hwf|]. split; [reflexivity|].
  pose proof (quota_is_kept_when_transport_fails
                (fun (tr : list CANMessage) (_ : Z) (_ : list Byte.byte) (_ : Z) =>
                   (tr, Some (TransportFailure "bus off")))
                (new_interface None (Some (new_RateLimiter None 0%Q)))
                (new_RateLimiter None 0%Q) 0x123 [] 0 false 0%Q
                (TransportFailure "bus off") Hwf eq_refl eq_refl eq_refl eq_refl) as H.
  simpl in H. destruct H as (H1 & H2 & _). by split.
Defined.

Lemma mock_receive_returns_the_queue_once_witness :
  let self :=
    mkBaseCANInterface None None (mkStats 0 0 0 0)
      {| sent_messages := []; receive_queue := [mkCANMessage 0x100 [] 1 0%Q] |} [] in
  well_formed_frame 0x200 0
  /\ (receive mock_receive_raw (add_receive_message 1%Q self 0x200 [] 0).1 None).2
     = inr [mkCANMessage 0x100 [] 1 0%Q; mkCANMessage 0x200 [] 0 1%Q].
Proof.
  assert (Hwf : well_formed_frame 0x200 0) by (unfold well_formed_frame; lia).
  split; [exact Hwf|].
  apply (mock_receive_returns_the_queue_once
           (mkBaseCANInterface None None (mkStats 0 0 0 0)
              {| sent_messages := []; receive_queue := [mkCANMessage 0x100 [] 1 0%Q] |} [])
           0x200 [] 0 1%Q None None Hwf).
Defined.

